(** * MockupAI: the upload slots, the batch orchestrator and the zip packaging

    A shallow embedding of [App.tsx] (the [ImageUploader] component and the
    [App] component's handlers), [utils/fileUtils.ts] and [types.ts].

    - JavaScript strings are sequences of UTF-16 code units; they are
      modelled as lists of code units so that [split], [trim] and
      [startsWith] can be written the way ECMAScript defines them.
    - A handler is a closure over the state of the render it belongs to: it
      reads that state and writes the live one through the setters.
    - The image service, [URL.createObjectURL], [fetch] and [Response.blob]
      are outside the repository; they are parameters, and what the code
      does to them is recorded (calls issued, outcomes, console lines).
    - [await] in a loop suspends the handler until the promise settles;
      [Promise.all] over [map] starts every callback at once and lets them
      finish in any order. *)

From Stdlib Require Import String Ascii DecimalString.
From stdpp Require Import base numbers list gmap.

Local Open Scope list_scope.

(** ** JavaScript strings *)

Module JS.

Definition code_unit : Type := N.
Definition jsstring : Type := list code_unit.

(** A string literal of the source (ASCII only). *)
Definition lit (s : string) : jsstring :=
  List.map N_of_ascii (list_ascii_of_string s).

(** [String(n)] for a non-negative integer, as a template literal prints an
    array length or a loop index. *)
Definition of_nat (n : nat) : jsstring :=
  lit (NilZero.string_of_uint (Nat.to_uint n)).

Definition eqb (a b : jsstring) : bool := bool_decide (a = b).

(** ECMAScript WhiteSpace and LineTerminator code points, the set stripped
    by [String.prototype.trim]. *)
Definition is_white_space (c : code_unit) : bool :=
  let c := Z.of_N c in
  ((c =? 0x09) || (c =? 0x0A) || (c =? 0x0B) || (c =? 0x0C) || (c =? 0x0D)
   || (c =? 0x20) || (c =? 0xA0) || (c =? 0x1680)
   || ((0x2000 <=? c) && (c <=? 0x200A))
   || (c =? 0x2028) || (c =? 0x2029) || (c =? 0x202F) || (c =? 0x205F)
   || (c =? 0x3000) || (c =? 0xFEFF))%Z.

Fixpoint trimStart (s : jsstring) : jsstring :=
  match s with
  | c :: s' => if is_white_space c then trimStart s' else s
  | [] => []
  end.

Definition trimEnd (s : jsstring) : jsstring := rev (trimStart (rev s)).

Definition trim (s : jsstring) : jsstring := trimEnd (trimStart s).

(** [s.split(sep)] for a separator of one code unit (the source only splits
    on ['.']).  The result is never empty: [''.split('.')] is [['']]. *)
Fixpoint split (sep : code_unit) (s : jsstring) : list jsstring :=
  match s with
  | [] => [[]]
  | c :: s' =>
      if N.eqb c sep then [] :: split sep s'
      else match split sep s' with
           | seg :: segs => (c :: seg) :: segs
           | [] => [[c]]
           end
  end.

Fixpoint startsWith (s prefix : jsstring) : bool :=
  match prefix, s with
  | [], _ => true
  | p :: prefix', c :: s' => N.eqb c p && startsWith s' prefix'
  | _ :: _, [] => false
  end.

(** [arr.slice(start)] for an integer [start]: a negative [start] counts from
    the end, and the index is clamped to the array. *)
Definition slice {A} (start : Z) (l : list A) : list A :=
  let len := Z.of_nat (length l) in
  let k := (if start <? 0 then Z.max (len + start) 0 else Z.min start len)%Z in
  drop (Z.to_nat k) l.

(** What a template literal prints for a value that may be [undefined]. *)
Definition show (o : option jsstring) : jsstring :=
  match o with
  | Some s => s
  | None => lit "undefined"
  end.

Definition dot : code_unit := N_of_ascii ".".

End JS.

Import JS.

(** ** types.ts *)

Inductive AppMode :=
| OneModelNOutfits
| NModelsOneOutfit
| Editor
| Generator
| PosterPlacement.

#[global] Instance AppMode_eq_dec : EqDecision AppMode.
Proof. solve_decision. Defined.

(** The enum's string values, shown on the mode tabs. *)
Definition AppMode_value (m : AppMode) : jsstring :=
  match m with
  | OneModelNOutfits => lit "1 Model : N Outfits"
  | NModelsOneOutfit => lit "N Models : 1 Outfit"
  | Editor => lit "AI Image Editor"
  | Generator => lit "AI Image Generator"
  | PosterPlacement => lit "Poster Placement"
  end.

(** A DOM [File]: its name, its MIME type and its bytes. *)
Record File := mkFile {
  file_name : jsstring;
  file_type : jsstring;
  file_bytes : list N;
}.

Record ImageFile := mkImageFile {
  file : File;
  preview : jsstring;
  name : jsstring;
}.

Record ResultImage := mkResultImage {
  src : jsstring;
  rname : jsstring;
}.

#[global] Instance File_eq_dec : EqDecision File.
Proof. solve_decision. Defined.
#[global] Instance ImageFile_eq_dec : EqDecision ImageFile.
Proof. solve_decision. Defined.
#[global] Instance ResultImage_eq_dec : EqDecision ResultImage.
Proof. solve_decision. Defined.

(** ** App.tsx: the [ImageUploader] component (one upload slot) *)

Record ImageUploaderProps := mkProps {
  multiple : bool;
  limit : option Z;            (* [limit?: number], integer limits *)
}.

(** The component's state, together with what it has done to the outside:
    the [onFilesChange] notifications it has sent (oldest first) and the
    number of object URLs it has created. *)
Record ImageUploader := mkUploader {
  dragActive : bool;
  uploadedFiles : list ImageFile;
  onFilesChange : list (list ImageFile);
  urls_created : nat;
}.

Section Uploader.

(** [URL.createObjectURL]: the browser hands out a new URL at every call;
    the first argument counts the URLs created before. *)
Variable createObjectURL : nat -> File -> jsstring.

(** [.map(file => ({ file, preview: URL.createObjectURL(file), name: file.name }))] *)
Fixpoint toImageFiles (n : nat) (files : list File) : list ImageFile :=
  match files with
  | [] => []
  | f :: files' =>
      {| file := f; preview := createObjectURL n f; name := file_name f |}
      :: toImageFiles (S n) files'
  end.

Definition is_image (f : File) : bool := startsWith (file_type f) (lit "image/").

Definition handleFiles (p : ImageUploaderProps) (files : option (list File))
    (u : ImageUploader) : ImageUploader :=
  match files with
  | None => u
  | Some files =>
      let newImageFiles := toImageFiles (urls_created u) (List.filter is_image files) in
      if (length newImageFiles =? 0)%nat then u
      else
        let updatedFiles :=
          if multiple p then
            let updatedFiles := uploadedFiles u ++ newImageFiles in
            match limit p with
            | Some limit =>
                (* [limit && updatedFiles.length > limit]: 0 is falsy *)
                if negb (limit =? 0)%Z && (limit <? Z.of_nat (length updatedFiles))%Z
                then slice (Z.of_nat (length updatedFiles) - limit) updatedFiles
                else updatedFiles
            | None => updatedFiles
            end
          else slice (-1) newImageFiles (* Only take the last one *)
        in
        {| dragActive := dragActive u;
           uploadedFiles := updatedFiles;
           onFilesChange := onFilesChange u ++ [updatedFiles];
           urls_created := urls_created u + length newImageFiles |}
  end.

Definition handleDrop (p : ImageUploaderProps) (files : option (list File))
    (u : ImageUploader) : ImageUploader :=
  handleFiles p files
    {| dragActive := false; uploadedFiles := uploadedFiles u;
       onFilesChange := onFilesChange u; urls_created := urls_created u |}.

Definition removeFile (fileName : jsstring) (u : ImageUploader) : ImageUploader :=
  let newFiles := List.filter (fun f => negb (JS.eqb (name f) fileName)) (uploadedFiles u) in
  {| dragActive := dragActive u;
     uploadedFiles := newFiles;
     onFilesChange := onFilesChange u ++ [newFiles];
     urls_created := urls_created u |}.

(** A freshly mounted slot. *)
Definition ImageUploader_init : ImageUploader :=
  {| dragActive := false; uploadedFiles := []; onFilesChange := []; urls_created := 0 |}.

(** What the user can do to a slot. *)
Inductive UploaderAction :=
| Add (files : option (list File))
| Remove (fileName : jsstring).

Definition uploader_step (p : ImageUploaderProps) (a : UploaderAction)
    (u : ImageUploader) : ImageUploader :=
  match a with
  | Add files => handleFiles p files u
  | Remove fileName => removeFile fileName u
  end.

(** The slot after a sequence of actions, from a fresh mount. *)
Definition uploader_run (p : ImageUploaderProps) (acts : list UploaderAction) : ImageUploader :=
  fold_left (fun u a => uploader_step p a u) acts ImageUploader_init.

End Uploader.

(** ** App.tsx: the [App] component *)

Record AppState := mkApp {
  mode : AppMode;
  models : list ImageFile;
  outfits : list ImageFile;
  baseImage : list ImageFile;
  poster : list ImageFile;
  prompt : jsstring;
  results : list ResultImage;
  isLoading : bool;
  loadingMessage : jsstring;
}.

(** The [useState] initial values. *)
Definition App_init : AppState :=
  {| mode := OneModelNOutfits; models := []; outfits := []; baseImage := [];
     poster := [];
     prompt := lit "Create a photorealistic image of the model wearing the outfit. Match the lighting, shadows, and style for a seamless composition.";
     results := []; isLoading := false; loadingMessage := [] |}.

Definition isBatchMode (s : AppState) : bool :=
  bool_decide (mode s = OneModelNOutfits) || bool_decide (mode s = NModelsOneOutfit)
  || bool_decide (mode s = PosterPlacement).

(** The [switch] has a case for each of the five modes; its [default] is
    never taken. *)
Definition isGenerateButtonDisabled (s : AppState) : bool :=
  if isLoading s then true
  else
    match mode s with
    | OneModelNOutfits => (length (models s) =? 0)%nat || (length (outfits s) =? 0)%nat
    | NModelsOneOutfit => (length (models s) =? 0)%nat || (length (outfits s) =? 0)%nat
    | Editor => (length (baseImage s) =? 0)%nat || JS.eqb (trim (prompt s)) []
    | Generator => JS.eqb (trim (prompt s)) []
    | PosterPlacement => (length (poster s) =? 0)%nat || JS.eqb (trim (prompt s)) []
    end.

(** State setters. *)
Definition setMode (v : AppMode) (s : AppState) : AppState :=
  mkApp v (models s) (outfits s) (baseImage s) (poster s) (prompt s) (results s) (isLoading s) (loadingMessage s).
Definition setModels (v : list ImageFile) (s : AppState) : AppState :=
  mkApp (mode s) v (outfits s) (baseImage s) (poster s) (prompt s) (results s) (isLoading s) (loadingMessage s).
Definition setOutfits (v : list ImageFile) (s : AppState) : AppState :=
  mkApp (mode s) (models s) v (baseImage s) (poster s) (prompt s) (results s) (isLoading s) (loadingMessage s).
Definition setBaseImage (v : list ImageFile) (s : AppState) : AppState :=
  mkApp (mode s) (models s) (outfits s) v (poster s) (prompt s) (results s) (isLoading s) (loadingMessage s).
Definition setPoster (v : list ImageFile) (s : AppState) : AppState :=
  mkApp (mode s) (models s) (outfits s) (baseImage s) v (prompt s) (results s) (isLoading s) (loadingMessage s).
Definition setPrompt (v : jsstring) (s : AppState) : AppState :=
  mkApp (mode s) (models s) (outfits s) (baseImage s) (poster s) v (results s) (isLoading s) (loadingMessage s).
Definition setResults (v : list ResultImage) (s : AppState) : AppState :=
  mkApp (mode s) (models s) (outfits s) (baseImage s) (poster s) (prompt s) v (isLoading s) (loadingMessage s).
Definition setIsLoading (v : bool) (s : AppState) : AppState :=
  mkApp (mode s) (models s) (outfits s) (baseImage s) (poster s) (prompt s) (results s) v (loadingMessage s).
Definition setLoadingMessage (v : jsstring) (s : AppState) : AppState :=
  mkApp (mode s) (models s) (outfits s) (baseImage s) (poster s) (prompt s) (results s) (isLoading s) v.

Definition handleModeChange (newMode : AppMode) (s : AppState) : AppState :=
  let s := setMode newMode s in
  let s := setResults [] s in
  let s := setModels [] s in
  let s := setOutfits [] s in
  let s := setBaseImage [] s in
  let s := setPoster [] s in
  if decide (newMode = Editor) then
    setPrompt (lit "Add a retro filter to this image.") s
  else if decide (newMode = Generator) then
    setPrompt (lit "A vibrant, photorealistic image of a futuristic city at sunset.") s
  else if decide (newMode = PosterPlacement) then
    setPrompt (lit "Place this poster on a wall in a cozy bedroom, next to the bed. The poster should be frameless and blend naturally with the room's lighting and perspective.") s
  else
    setPrompt (lit "Create a photorealistic image of the model wearing the outfit. Match the lighting, shadows, and style for a seamless composition.") s.

(** ** The remote image operations ([services/geminiService]) and the
    effects of a run *)

(** One call of the image service.  An array element read with [arr[0]] is
    [undefined] on an empty array, hence the options. *)
Inductive Request :=
| generateVirtualTryOn (model outfit : option ImageFile) (instruction : jsstring)
| editImage (image : option ImageFile) (instruction : jsstring)
| generateImage (instruction : jsstring)
| placePosterOnWall (p : ImageFile) (instruction : jsstring).

(** How the awaited promise settles. *)
Inductive Outcome :=
| Fulfilled (resultSrc : jsstring)
| Rejected (reason : jsstring).

(** What a [try] block can throw here. *)
Inductive Exn :=
| Rejection (reason : jsstring)     (* an awaited promise was rejected *)
| TypeError.                        (* a property of [undefined] was read *)

Inductive Event :=
| Call (r : Request)                (* the operation is invoked *)
| Settle (o : Outcome)              (* the [await] resumes *)
| LoadingMessage (msg : jsstring)   (* [setLoadingMessage(msg)] *)
| ConsoleError (msg : jsstring) (e : Exn)
| Alert (msg : jsstring).

(** The live component state and everything that has happened, oldest
    first. *)
Record World := mkWorld {
  app : AppState;
  trace : list Event;
}.

Fixpoint calls_of (t : list Event) : list Request :=
  match t with
  | Call r :: t' => r :: calls_of t'
  | _ :: t' => calls_of t'
  | [] => []
  end.

Fixpoint outcomes_of (t : list Event) : list Outcome :=
  match t with
  | Settle o :: t' => o :: outcomes_of t'
  | _ :: t' => outcomes_of t'
  | [] => []
  end.

(** No operation is invoked while another one is outstanding: every [Call]
    is answered by its [Settle] before the next [Call]. *)
Fixpoint sequential_from (outstanding : bool) (t : list Event) : bool :=
  match t with
  | [] => negb outstanding
  | Call _ :: t' => negb outstanding && sequential_from true t'
  | Settle _ :: t' => outstanding && sequential_from false t'
  | _ :: t' => sequential_from outstanding t'
  end.

Definition strictly_sequential (t : list Event) : bool := sequential_from false t.

(** Computations that change the world and may throw. *)
Definition M (A : Type) : Type := World -> (Exn + A) * World.

Definition ret {A} (a : A) : M A := fun w => (inr a, w).

Definition bind {A B} (m : M A) (k : A -> M B) : M B :=
  fun w =>
    match m w with
    | (inr a, w') => k a w'
    | (inl e, w') => (inl e, w')
    end.

Definition throw {A} (e : Exn) : M A := fun w => (inl e, w).

Declare Scope js_scope.
Delimit Scope js_scope with js.
Notation "x <- m ;; k" := (bind m (fun x => k))
  (at level 100, m at next level, right associativity) : js_scope.
Notation "m ;; k" := (bind m (fun _ => k))
  (at level 100, right associativity) : js_scope.

(** [try { body } catch (error) { handler } finally { final }] *)
Definition try_catch_finally (body : M unit) (handler : Exn -> M unit)
    (final : M unit) : M unit :=
  fun w =>
    match body w with
    | (inr tt, w1) => final w1
    | (inl e, w1) =>
        match handler e w1 with
        | (inr tt, w2) => final w2
        | (inl e', w2) =>
            match final w2 with
            | (inr tt, w3) => (inl e', w3)
            | (inl e'', w3) => (inl e'', w3)
            end
        end
    end.

Definition emit (e : Event) : M unit :=
  fun w => (inr tt, {| app := app w; trace := trace w ++ [e] |}).

Definition update (f : AppState -> AppState) : M unit :=
  fun w => (inr tt, {| app := f (app w); trace := trace w |}).

(** [obj.name] on a value that may be [undefined]. *)
Definition name_of (o : option ImageFile) : M jsstring :=
  match o with
  | Some f => ret (name f)
  | None => throw TypeError
  end.

(** [for (const [index, x] of arr.entries()) body], the body working on a
    local array [acc] it pushes to. *)
Fixpoint for_entries {A B} (index : nat) (arr : list A)
    (body : nat -> A -> B -> M B) (acc : B) : M B :=
  match arr with
  | [] => ret acc
  | x :: arr' => bind (body index x acc) (for_entries (S index) arr' body)
  end.

Section Run.

(** The image service: how the call that is the [n]-th of the run (counting
    from 0) settles. *)
Variable remote : nat -> Request -> Outcome.

(** [await op(...)] *)
Definition await (r : Request) : M jsstring :=
  fun w =>
    let o := remote (length (calls_of (trace w))) r in
    let w' := {| app := app w; trace := trace w ++ [Call r; Settle o] |} in
    match o with
    | Fulfilled resultSrc => (inr resultSrc, w')
    | Rejected reason => (inl (Rejection reason), w')
    end.

Definition set_loading_message (msg : jsstring) : M unit :=
  bind (emit (LoadingMessage msg)) (fun _ => update (setLoadingMessage msg)).

Local Open Scope js_scope.

(** The [try] block of [handleGenerate], as rendered with state [c]: the
    closure reads [c], the setters write the live state. *)
Definition try_block (c : AppState) : M unit :=
  if decide (mode c = OneModelNOutfits) then
    set_loading_message (lit "Generating " ++ of_nat (length (outfits c)) ++ lit " images... (1 of " ++ of_nat (length (outfits c)) ++ lit ")") ;;
    generatedResults <- for_entries 0 (outfits c) (fun index outfit generatedResults =>
      set_loading_message (lit "Generating " ++ of_nat (length (outfits c)) ++ lit " images... (" ++ of_nat (index + 1) ++ lit " of " ++ of_nat (length (outfits c)) ++ lit ")") ;;
      resultSrc <- await (generateVirtualTryOn (models c !! 0) (Some outfit) (prompt c)) ;;
      model_name <- name_of (models c !! 0) ;;
      let resultName := show (split dot model_name !! 0) ++ lit "_" ++ show (split dot (name outfit) !! 0) ++ lit ".png" in
      ret (generatedResults ++ [ {| src := resultSrc; rname := resultName |} ])) [] ;;
    update (setResults generatedResults)
  else if decide (mode c = NModelsOneOutfit) then
    set_loading_message (lit "Generating " ++ of_nat (length (models c)) ++ lit " images... (1 of " ++ of_nat (length (models c)) ++ lit ")") ;;
    generatedResults <- for_entries 0 (models c) (fun index model generatedResults =>
      set_loading_message (lit "Generating " ++ of_nat (length (models c)) ++ lit " images... (" ++ of_nat (index + 1) ++ lit " of " ++ of_nat (length (models c)) ++ lit ")") ;;
      resultSrc <- await (generateVirtualTryOn (Some model) (outfits c !! 0) (prompt c)) ;;
      outfit_name <- name_of (outfits c !! 0) ;;
      let resultName := show (split dot (name model) !! 0) ++ lit "_" ++ show (split dot outfit_name !! 0) ++ lit ".png" in
      ret (generatedResults ++ [ {| src := resultSrc; rname := resultName |} ])) [] ;;
    update (setResults generatedResults)
  else if decide (mode c = Editor) then
    set_loading_message (lit "Editing your image...") ;;
    resultSrc <- await (editImage (baseImage c !! 0) (prompt c)) ;;
    image_name <- name_of (baseImage c !! 0) ;;
    update (setResults [ {| src := resultSrc; rname := lit "edited_" ++ image_name |} ])
  else if decide (mode c = Generator) then
    set_loading_message (lit "Generating your masterpiece...") ;;
    resultSrc <- await (generateImage (prompt c)) ;;
    update (setResults [ {| src := resultSrc; rname := lit "generated_image.png" |} ])
  else if decide (mode c = PosterPlacement) then
    set_loading_message (lit "Placing " ++ of_nat (length (poster c)) ++ lit " posters... (1 of " ++ of_nat (length (poster c)) ++ lit ")") ;;
    generatedResults <- for_entries 0 (poster c) (fun index p generatedResults =>
      set_loading_message (lit "Placing " ++ of_nat (length (poster c)) ++ lit " posters... (" ++ of_nat (index + 1) ++ lit " of " ++ of_nat (length (poster c)) ++ lit ")") ;;
      resultSrc <- await (placePosterOnWall p (prompt c)) ;;
      let resultName := lit "poster_in_room_" ++ name p in
      ret (generatedResults ++ [ {| src := resultSrc; rname := resultName |} ])) [] ;;
    update (setResults generatedResults)
  else ret tt.

Definition catch_block (error : Exn) : M unit :=
  emit (ConsoleError (lit "Generation failed:") error) ;;
  emit (Alert (lit "An error occurred during generation. Check the console for details.")).

Definition finally_block : M unit :=
  update (setIsLoading false) ;;
  set_loading_message [].

Definition handleGenerate (c : AppState) : M unit :=
  update (setIsLoading true) ;;
  update (setResults []) ;;
  try_catch_finally (try_block c) catch_block finally_block.

(** A run started by the button on the rendered state [s], nothing having
    happened before. *)
Definition run (s : AppState) : World :=
  snd (handleGenerate s {| app := s; trace := [] |}).

End Run.

(** ** utils/fileUtils.ts: [downloadAllAsZip] *)

Section Packaging.

(** A fetched [Response] and the [Blob] read from it. *)
Variables Response Blob : Type.

(** [fetch(url)] as issued for the item at a given position, and
    [response.blob()]; either may reject, with a reason. *)
Variable fetch : nat -> jsstring -> jsstring + Response.
Variable blob : Response -> jsstring + Blob.

(** The [JSZip] object is represented by the [zip.file(name, data)] calls
    made on it, oldest first; [None] before [new JSZip()]. *)
Record Packaging := mkPackaging {
  fetches : list jsstring;                        (* [fetch] calls issued *)
  zip : option (list (jsstring * Blob));
  console : list (jsstring * jsstring);           (* [console.error(msg, error)] *)
  downloads : list (list (jsstring * Blob) * jsstring);
                     (* archives handed to the browser, with the [download] name *)
}.

Definition Packaging_init : Packaging :=
  {| fetches := []; zip := None; console := []; downloads := [] |}.

Definition zip_file (n : jsstring) (data : Blob) (st : Packaging) : Packaging :=
  {| fetches := fetches st;
     zip := (fun entries => entries ++ [(n, data)]) <$> zip st;
     console := console st; downloads := downloads st |}.

Definition console_error (msg error : jsstring) (st : Packaging) : Packaging :=
  {| fetches := fetches st; zip := zip st;
     console := console st ++ [(msg, error)]; downloads := downloads st |}.

(** The callback up to its first [await]: the fetch is issued. *)
Definition issue_fetch (image : ResultImage) (st : Packaging) : Packaging :=
  {| fetches := fetches st ++ [src image]; zip := zip st;
     console := console st; downloads := downloads st |}.

(** What the item at position [i] gives once its promises have settled. *)
Definition fetched (i : nat) (image : ResultImage) : jsstring + Blob :=
  match fetch i (src image) with
  | inr response => blob response
  | inl error => inl error
  end.

(** The rest of the callback of the item at position [i]: the [try] block
    after the awaits, or the [catch] block. *)
Definition settle (images : list ResultImage) (i : nat) (st : Packaging) : Packaging :=
  match images !! i with
  | Some image =>
      match fetched i image with
      | inr data => zip_file (rname image) data st
      | inl error =>
          console_error (lit "Failed to fetch image " ++ rname image ++ lit ":") error st
      end
  | None => st
  end.

(** [downloadAllAsZip(images)].  [Promise.all] runs the callbacks
    concurrently: all fetches are issued first, in input order, and the
    callbacks then finish in the order [schedule] gives (positions in
    [images]), which the browser and the network decide.  A callback
    finishes when it runs its last continuation: the [zip.file] call once
    both [fetch] and [response.blob()] have settled, or the [catch] block once
    one of them has been rejected.  Between its two awaits a callback does
    nothing to the archive or to the console, so the order of the fetch
    responses alone is not recorded. *)
Definition downloadAllAsZip (schedule : list nat) (images : list ResultImage) : Packaging :=
  if (length images =? 0)%nat then Packaging_init
  else
    let st := {| fetches := []; zip := Some []; console := []; downloads := [] |} in
    let st := fold_left (fun st image => issue_fetch image st) images st in
    let st := fold_left (fun st i => settle images i st) schedule st in
    match zip st with
    | Some content =>
        {| fetches := fetches st; zip := zip st; console := console st;
           downloads := downloads st ++ [(content, lit "virtual-try-on-results.zip")] |}
    | None => st
    end.

(** A schedule in which every callback finishes exactly once. *)
Definition fair (schedule : list nat) (images : list ResultImage) : Prop :=
  Permutation schedule (seq 0 (length images)).

End Packaging.

Arguments fetches {Blob} _.
Arguments zip {Blob} _.
Arguments console {Blob} _.
Arguments downloads {Blob} _.
Arguments zip_file {Blob} n data st.
Arguments console_error {Blob} msg error st.
Arguments issue_fetch {Blob} image st.
Arguments fetched {Response Blob} fetch blob i image.
Arguments settle {Response Blob} fetch blob images i st.
Arguments downloadAllAsZip {Response Blob} fetch blob schedule images.

(** ** Notions of the specification *)

(** Stem: the name up to its first dot. *)
Fixpoint stem (n : jsstring) : jsstring :=
  match n with
  | [] => []
  | c :: n' => if N.eqb c dot then [] else c :: stem n'
  end.

(** The number of work units of a run, per mode. *)
Definition work_units (s : AppState) : nat :=
  match mode s with
  | OneModelNOutfits => length (outfits s)
  | NModelsOneOutfit => length (models s)
  | Editor => 1
  | Generator => 1
  | PosterPlacement => length (poster s)
  end.

(** A run may start: the button that calls [handleGenerate] is enabled. *)
Definition may_start (s : AppState) : Prop := isGenerateButtonDisabled s = false.

(** An instruction that is not empty once trimmed. *)
Definition non_empty (instruction : jsstring) : Prop := trim instruction <> [].

Definition is_fulfilled (o : Outcome) : bool :=
  match o with
  | Fulfilled _ => true
  | Rejected _ => false
  end.

(** The [l] most recently added entries of an ordered selection. *)
Definition most_recent {A} (l : nat) (selection : list A) : list A :=
  drop (length selection - l) selection.

(** The selection holds exactly the last file of the batch. *)
Definition holds_last_of (batch : list File) (selection : list ImageFile) : Prop :=
  match last batch with
  | Some f => List.map file selection = [f]
  | None => False
  end.

(** A rejection, if any, is the last outcome: nothing settles after it. *)
Fixpoint rejection_is_last (os : list Outcome) : bool :=
  match os with
  | [] => true
  | Fulfilled _ :: os' => rejection_is_last os'
  | Rejected _ :: os' => match os' with [] => true | _ :: _ => false end
  end.

Section Units.

Variable remote : nat -> Request -> Outcome.
Context {A : Type}.
Variable msg : nat -> jsstring.                        (* the progress label *)
Variable req : A -> Request.                           (* the call of a unit *)
Variable mk : A -> jsstring -> option ResultImage.     (* the record; [None]: naming throws *)

(** One iteration of a batch loop, as a function of the world: progress
    label, call, settlement, then the record pushed or the exception. *)
Definition unit_step (index : nat) (x : A) (acc : list ResultImage) : M (list ResultImage) :=
  fun w =>
    let o := remote (length (calls_of (trace w))) (req x) in
    let w' := {| app := setLoadingMessage (msg index) (app w);
                 trace := trace w ++ [LoadingMessage (msg index); Call (req x); Settle o] |} in
    match o with
    | Rejected reason => (inl (Rejection reason), w')
    | Fulfilled resultSrc =>
        match mk x resultSrc with
        | Some r => (inr (acc ++ [r]), w')
        | None => (inl TypeError, w')
        end
    end.

End Units.

(** The three batch loops of [handleGenerate], unit by unit: the progress
    label, the call and the record of a unit. *)
Definition outfit_progress (c : AppState) (index : nat) : jsstring :=
  lit "Generating " ++ of_nat (length (outfits c)) ++ lit " images... (" ++ of_nat (index + 1) ++ lit " of " ++ of_nat (length (outfits c)) ++ lit ")".
Definition outfit_request (c : AppState) (outfit : ImageFile) : Request :=
  generateVirtualTryOn (models c !! 0) (Some outfit) (prompt c).
Definition outfit_record (c : AppState) (outfit : ImageFile) (resultSrc : jsstring) : option ResultImage :=
  match models c !! 0 with
  | Some model =>
      Some {| src := resultSrc;
              rname := show (split dot (name model) !! 0) ++ lit "_" ++ show (split dot (name outfit) !! 0) ++ lit ".png" |}
  | None => None
  end.

Definition model_progress (c : AppState) (index : nat) : jsstring :=
  lit "Generating " ++ of_nat (length (models c)) ++ lit " images... (" ++ of_nat (index + 1) ++ lit " of " ++ of_nat (length (models c)) ++ lit ")".
Definition model_request (c : AppState) (model : ImageFile) : Request :=
  generateVirtualTryOn (Some model) (outfits c !! 0) (prompt c).
Definition model_record (c : AppState) (model : ImageFile) (resultSrc : jsstring) : option ResultImage :=
  match outfits c !! 0 with
  | Some outfit =>
      Some {| src := resultSrc;
              rname := show (split dot (name model) !! 0) ++ lit "_" ++ show (split dot (name outfit) !! 0) ++ lit ".png" |}
  | None => None
  end.

Definition poster_progress (c : AppState) (index : nat) : jsstring :=
  lit "Placing " ++ of_nat (length (poster c)) ++ lit " posters... (" ++ of_nat (index + 1) ++ lit " of " ++ of_nat (length (poster c)) ++ lit ")".
Definition poster_request (c : AppState) (p : ImageFile) : Request :=
  placePosterOnWall p (prompt c).
Definition poster_record (c : AppState) (p : ImageFile) (resultSrc : jsstring) : option ResultImage :=
  Some {| src := resultSrc; rname := lit "poster_in_room_" ++ name p |}.

(** What the [finally] block leaves of a state. *)
Definition settled (s : AppState) : AppState := setLoadingMessage [] (setIsLoading false s).

(** The items of a packaging run whose fetch succeeded, as archive entries
    under their output names, and those whose fetch failed, as console
    lines; both in input order, [i] being the position of the first item.
    They are written from what [fetch] and [blob] answer, not from the
    code. *)
Section PackagingOutcome.

Variables Response Blob : Type.
Variable fetch : nat -> jsstring -> jsstring + Response.
Variable blob : Response -> jsstring + Blob.

(** The item at position [i] is fetched and read, and gives [data]. *)
Definition succeeds (i : nat) (image : ResultImage) (data : Blob) : Prop :=
  exists response, fetch i (src image) = inr response /\ blob response = inr data.

Definition archived (i : nat) (image : ResultImage) : option (jsstring * Blob) :=
  match fetch i (src image) with
  | inr response =>
      match blob response with
      | inr data => Some (rname image, data)
      | inl _ => None
      end
  | inl _ => None
  end.

Definition logged (i : nat) (image : ResultImage) : option (jsstring * jsstring) :=
  match fetch i (src image) with
  | inr response =>
      match blob response with
      | inr _ => None
      | inl error => Some (lit "Failed to fetch image " ++ rname image ++ lit ":", error)
      end
  | inl error => Some (lit "Failed to fetch image " ++ rname image ++ lit ":", error)
  end.

Fixpoint successes (i : nat) (images : list ResultImage) : list (jsstring * Blob) :=
  match images with
  | [] => []
  | image :: images' =>
      match archived i image with
      | Some entry => entry :: successes (S i) images'
      | None => successes (S i) images'
      end
  end.

Fixpoint failures (i : nat) (images : list ResultImage) : list (jsstring * jsstring) :=
  match images with
  | [] => []
  | image :: images' =>
      match logged i image with
      | Some line => line :: failures (S i) images'
      | None => failures (S i) images'
      end
  end.

End PackagingOutcome.

Arguments succeeds {Response Blob} fetch blob i image data.
Arguments archived {Response Blob} fetch blob i image.
Arguments logged {Response Blob} fetch blob i image.
Arguments successes {Response Blob} fetch blob i images.
Arguments failures {Response Blob} fetch blob i images.

(** The default instruction text of each mode. *)
Definition default_instruction (m : AppMode) : jsstring :=
  match m with
  | OneModelNOutfits | NModelsOneOutfit =>
      lit "Create a photorealistic image of the model wearing the outfit. Match the lighting, shadows, and style for a seamless composition."
  | Editor => lit "Add a retro filter to this image."
  | Generator => lit "A vibrant, photorealistic image of a futuristic city at sunset."
  | PosterPlacement =>
      lit "Place this poster on a wall in a cozy bedroom, next to the bed. The poster should be frameless and blend naturally with the room's lighting and perspective."
  end.

(** The precondition of a run, per mode. *)
Definition precondition (s : AppState) : Prop :=
  match mode s with
  | OneModelNOutfits | NModelsOneOutfit => 1 <= length (models s) /\ 1 <= length (outfits s)
  | Editor => 1 <= length (baseImage s) /\ non_empty (prompt s)
  | Generator => non_empty (prompt s)
  | PosterPlacement => 1 <= length (poster s) /\ non_empty (prompt s)
  end.

(** ** Sample data *)

Definition a_png : File := mkFile (lit "a.png") (lit "image/png") [1%N].
Definition b_jpg : File := mkFile (lit "b.jpg") (lit "image/jpeg") [2%N].
Definition c_png : File := mkFile (lit "c.v2.png") (lit "image/png") [3%N].
Definition notes_txt : File := mkFile (lit "notes.txt") (lit "text/plain") [4%N].

Definition sample_url (n : nat) (f : File) : jsstring := lit "blob:" ++ of_nat n.

Definition image_of (n : nat) (f : File) : ImageFile :=
  {| file := f; preview := sample_url n f; name := file_name f |}.

Definition single_select : ImageUploaderProps := {| multiple := false; limit := None |}.
Definition multi_select (l : Z) : ImageUploaderProps := {| multiple := true; limit := Some l |}.

(** A slot that holds the given files. *)
Definition slot_with (files : list File) : ImageUploader :=
  {| dragActive := false; uploadedFiles := imap image_of files;
     onFilesChange := [imap image_of files]; urls_created := length files |}.

Definition anna : ImageFile :=
  image_of 0 (mkFile (lit "anna.v2.jpg") (lit "image/jpeg") [5%N]).

Definition stale : ResultImage := {| src := lit "data:old"; rname := lit "old.png" |}.

Definition sample_tryon : AppState :=
  {| mode := OneModelNOutfits; models := [anna];
     outfits := [image_of 1 a_png; image_of 2 c_png; image_of 3 b_jpg];
     baseImage := []; poster := [];
     prompt := default_instruction OneModelNOutfits;
     results := [stale]; isLoading := false; loadingMessage := [] |}.

Definition sample_editor : AppState :=
  {| mode := Editor; models := []; outfits := []; baseImage := [anna]; poster := [];
     prompt := default_instruction Editor;
     results := [stale]; isLoading := false; loadingMessage := [] |}.

Definition sample_generator : AppState :=
  {| mode := Generator; models := []; outfits := []; baseImage := []; poster := [];
     prompt := default_instruction Generator;
     results := [stale]; isLoading := false; loadingMessage := [] |}.

(** A service that answers every call, and one whose second answer is a
    rejection. *)
Definition always_ok (n : nat) (r : Request) : Outcome :=
  Fulfilled (lit "data:image/png;base64," ++ of_nat n).

Definition second_fails (n : nat) (r : Request) : Outcome :=
  if (n =? 1)%nat then Rejected (lit "quota exceeded") else always_ok n r.

(** Three results to package; the fetch of the second one fails, and the
    callbacks finish third, first, second. *)
Definition sample_results : list ResultImage :=
  [ {| src := lit "data:0"; rname := lit "anna_a.png" |};
    {| src := lit "data:1"; rname := lit "anna_c.png" |};
    {| src := lit "data:2"; rname := lit "anna_b.png" |} ].

Definition sample_fetch (i : nat) (url : jsstring) : jsstring + nat :=
  if (i =? 1)%nat then inl (lit "TypeError: Failed to fetch") else inr i.

Definition sample_blob (response : nat) : jsstring + list N := inr [N.of_nat response].

Definition sample_schedule : list nat := [2; 0; 1].

(** ** Further parts of the source and notions used for them *)

(** [handleDrag]: the highlight follows the drag events. *)
Definition handleDrag (type : jsstring) (u : ImageUploader) : ImageUploader :=
  if JS.eqb type (lit "dragenter") || JS.eqb type (lit "dragover") then
    {| dragActive := true; uploadedFiles := uploadedFiles u;
       onFilesChange := onFilesChange u; urls_created := urls_created u |}
  else if JS.eqb type (lit "dragleave") then
    {| dragActive := false; uploadedFiles := uploadedFiles u;
       onFilesChange := onFilesChange u; urls_created := urls_created u |}
  else u.

Definition comma : code_unit := N_of_ascii ",".

(** [fileToBase64] of [utils/fileUtils.ts]: the promise is rejected with the
    reader's error, or resolved with [reader.result.split(',')[1]], which is
    [undefined] when the result holds no comma.  [readAsDataURL] is the
    browser's [FileReader]: the error it raises or the data URL it yields. *)
Definition fileToBase64 (readAsDataURL : File -> jsstring + jsstring) (f : File)
    : jsstring + option jsstring :=
  match readAsDataURL f with
  | inr result => inr (split comma result !! 1)
  | inl error => inl error
  end.

(** The alerts shown and the errors logged, oldest first. *)
Fixpoint alerts_of (t : list Event) : list jsstring :=
  match t with
  | Alert msg :: t' => msg :: alerts_of t'
  | _ :: t' => alerts_of t'
  | [] => []
  end.

Fixpoint console_errors_of (t : list Event) : list Exn :=
  match t with
  | ConsoleError _ e :: t' => e :: console_errors_of t'
  | _ :: t' => console_errors_of t'
  | [] => []
  end.

(** Two states with the same mode, selections and instruction. *)
Definition same_inputs (a b : AppState) : Prop :=
  mode a = mode b /\ models a = models b /\ outfits a = outfits b
  /\ baseImage a = baseImage b /\ poster a = poster b /\ prompt a = prompt b.

(** The image a run reads with [arr[0]] is missing although there is work
    to do. *)
Definition primary_missing (s : AppState) : Prop :=
  match mode s with
  | OneModelNOutfits => models s = [] /\ outfits s <> []
  | NModelsOneOutfit => outfits s = [] /\ models s <> []
  | Editor => baseImage s = []
  | Generator | PosterPlacement => False
  end.

(** The two paired modes. *)
Definition is_paired (m : AppMode) : bool :=
  match m with
  | OneModelNOutfits | NModelsOneOutfit => true
  | _ => false
  end.

(** An entry as [handleFiles] builds them: named after its file, which is
    an image. *)
Definition entry_ok (f : ImageFile) : Prop :=
  name f = file_name (file f) /\ is_image (file f) = true.

(** A slot whose limit, if any, does not truncate, or is positive and
    respected by the current selection. *)
Definition limit_respected (p : ImageUploaderProps) (u : ImageUploader) : Prop :=
  match limit p with
  | Some l => l = 0%Z \/ (0 < l /\ Z.of_nat (length (uploadedFiles u)) <= l)%Z
  | None => True
  end.

(** More sample data. *)
Definition sample_many_models : AppState :=
  {| mode := NModelsOneOutfit; models := [anna; image_of 1 a_png];
     outfits := [image_of 2 c_png]; baseImage := []; poster := [];
     prompt := default_instruction NModelsOneOutfit;
     results := [stale]; isLoading := false; loadingMessage := [] |}.

Definition sample_posters : AppState :=
  {| mode := PosterPlacement; models := []; outfits := []; baseImage := [];
     poster := [image_of 0 a_png; image_of 1 c_png];
     prompt := default_instruction PosterPlacement;
     results := [stale]; isLoading := false; loadingMessage := [] |}.

Definition sample_reader (f : File) : jsstring + jsstring :=
  inr (lit "data:" ++ file_type f ++ lit ";base64," ++ lit "aGVsbG8=").

(** ** The archive JSZip builds *)

(** [JSZip] is a library loaded from a CDN ([declare var JSZip: any]), not
    code of the repository.  Its [file(name, data)] adds an entry, or
    replaces the entry of that name: the archive holds one entry per name,
    from the last call made with it. *)
Definition JSZip_files {Blob} (calls : list (jsstring * Blob)) : gmap jsstring Blob :=
  fold_left (fun files entry => <[entry.1 := entry.2]> files) calls ∅.

(** The archive a packaging run hands to the browser. *)
Definition packaged_archive {Response Blob}
    (fetch : nat -> jsstring -> jsstring + Response) (blob : Response -> jsstring + Blob)
    (schedule : list nat) (images : list ResultImage) : gmap jsstring Blob :=
  match zip (downloadAllAsZip fetch blob schedule images) with
  | Some calls => JSZip_files calls
  | None => ∅
  end.

(** The archive holds every item whose fetch succeeded, under its output
    name. *)
Definition holds_every_success {Response Blob}
    (fetch : nat -> jsstring -> jsstring + Response) (blob : Response -> jsstring + Blob)
    (images : list ResultImage) (files : gmap jsstring Blob) : Prop :=
  forall i image data,
    images !! i = Some image -> succeeds fetch blob i image data ->
    files !! rname image = Some data.

(** Two results of the same output name, as the outfits [a.png] and [a.jpg]
    give for one model, and a network that serves both. *)
Definition twin_results : list ResultImage :=
  [ {| src := lit "data:0"; rname := lit "anna_a.png" |};
    {| src := lit "data:1"; rname := lit "anna_a.png" |} ].

Definition serving_fetch (i : nat) (url : jsstring) : jsstring + nat := inr i.

(** * Properties *)

(** ** JavaScript helpers *)

(** [name.split('.')[0]] is the stem, and is never [undefined]. *)
Lemma split_dot_first n : split dot n !! 0 = Some (stem n).
Proof.
  induction n as [|c n IH]; simpl; [reflexivity|].
  destruct (N.eqb c dot); [reflexivity|].
  destruct (split dot n) as [|seg segs]; simpl in *; congruence.
Qed.

Lemma drop_pred_length {A} (l : list A) :
  drop (length l - 1) l = match last l with Some x => [x] | None => [] end.
Proof.
  induction l as [|x [|y l] IH]; try reflexivity.
  replace (length (x :: y :: l) - 1) with (S (length (y :: l) - 1)) by (simpl; lia).
  rewrite last_cons_cons, <- IH. reflexivity.
Qed.

(** [arr.slice(-1)] is the last element, if any. *)
Lemma slice_last {A} (l : list A) :
  slice (-1) l = match last l with Some x => [x] | None => [] end.
Proof.
  unfold slice. rewrite <- drop_pred_length. f_equal.
  change (-1 <? 0)%Z with true. cbv iota. lia.
Qed.

(** [arr.slice(arr.length - k)] for [0 < k < arr.length] keeps the last [k]. *)
Lemma slice_most_recent {A} (k : Z) (l : list A) :
  (0 < k < Z.of_nat (length l))%Z ->
  slice (Z.of_nat (length l) - k) l = most_recent (Z.to_nat k) l.
Proof.
  intros Hk. unfold slice, most_recent. f_equal.
  destruct (Z.ltb_spec (Z.of_nat (length l) - k) 0); lia.
Qed.

Lemma trimStart_nil s : trimStart s = [] <-> forallb is_white_space s = true.
Proof.
  induction s as [|c s IH]; simpl; [tauto|].
  destruct (is_white_space c); simpl; [exact IH|]. split; discriminate.
Qed.

Lemma trimStart_head s c t : trimStart s = c :: t -> is_white_space c = false.
Proof.
  induction s as [|x s IH]; simpl; [discriminate|].
  destruct (is_white_space x) eqn:E; [exact IH|].
  intros [= <- _]. exact E.
Qed.

(** Trimming leaves nothing exactly when every code unit is white space. *)
Lemma trim_nil s : trim s = [] <-> forallb is_white_space s = true.
Proof.
  unfold trim, trimEnd. split.
  - intros H. apply (f_equal (@rev _)) in H. rewrite rev_involutive in H.
    simpl in H. apply trimStart_nil in H.
    destruct (trimStart s) as [|c t] eqn:E; [by apply trimStart_nil|].
    apply trimStart_head in E.
    rewrite forallb_forall in H. rewrite (H c) in E; [discriminate|].
    apply in_rev. rewrite rev_involutive. left. reflexivity.
  - intros H. apply trimStart_nil in H. rewrite H. reflexivity.
Qed.

(** ** The upload slot *)

Section UploaderFacts.

Variable createObjectURL : nat -> File -> jsstring.

Lemma length_toImageFiles n files :
  length (toImageFiles createObjectURL n files) = length files.
Proof. revert n. induction files as [|f files IH]; intros n; simpl; auto. Qed.

Lemma last_toImageFiles n files f :
  last files = Some f ->
  exists url, last (toImageFiles createObjectURL n files)
              = Some {| file := f; preview := url; name := file_name f |}.
Proof.
  revert n. induction files as [|x [|y files] IH]; intros n Hlast.
  - discriminate.
  - injection Hlast as ->. simpl. eauto.
  - rewrite last_cons_cons in Hlast.
    destruct (IH (S n) Hlast) as [url Hurl]. exists url.
    change (toImageFiles createObjectURL n (x :: y :: files))
      with ({| file := x; preview := createObjectURL n x; name := file_name x |}
            :: {| file := y; preview := createObjectURL (S n) y; name := file_name y |}
            :: toImageFiles createObjectURL (S (S n)) files).
    rewrite last_cons_cons. exact Hurl.
Qed.

Lemma filter_all_images batch :
  Forall (fun f => is_image f = true) batch -> List.filter is_image batch = batch.
Proof.
  induction 1 as [|f batch Hf _ IH]; simpl; [reflexivity|].
  rewrite Hf, IH. reflexivity.
Qed.

Lemma filter_no_images batch :
  Forall (fun f => is_image f = false) batch -> List.filter is_image batch = [].
Proof.
  induction 1 as [|f batch Hf _ IH]; simpl; [reflexivity|].
  rewrite Hf. exact IH.
Qed.

Lemma most_recent_all {A} (l : nat) (selection : list A) :
  length selection <= l -> most_recent l selection = selection.
Proof. intros H. unfold most_recent. replace (length selection - l) with 0 by lia. reflexivity. Qed.

Lemma most_recent_length {A} (l : nat) (selection : list A) :
  l <= length selection -> length (most_recent l selection) = l.
Proof. intros H. unfold most_recent. rewrite length_drop. lia. Qed.

Lemma most_recent_suffix {A} (l : nat) (selection : list A) :
  exists oldest, selection = oldest ++ most_recent l selection.
Proof.
  exists (take (length selection - l) selection). unfold most_recent.
  symmetry. apply take_drop.
Qed.

(** A drop with no image in it returns before any state is set. *)
Lemma handleFiles_no_image p batch u :
  List.filter is_image batch = [] -> handleFiles createObjectURL p (Some batch) u = u.
Proof. intros H. unfold handleFiles. rewrite H. reflexivity. Qed.

(** What a multi-select slot with a positive limit holds after an add. *)
Lemma handleFiles_multi p (l : Z) u batch :
  multiple p = true -> limit p = Some l -> (0 < l)%Z ->
  List.filter is_image batch <> [] \/ (Z.of_nat (length (uploadedFiles u)) <= l)%Z ->
  uploadedFiles (handleFiles createObjectURL p (Some batch) u)
  = most_recent (Z.to_nat l)
      (uploadedFiles u ++ toImageFiles createObjectURL (urls_created u) (List.filter is_image batch)).
Proof.
  intros Hm Hl Hpos Hst. unfold handleFiles. rewrite Hm, Hl.
  destruct (List.filter is_image batch) as [|f images] eqn:E.
  - destruct Hst as [Hne|Hle]; [congruence|]. simpl. rewrite app_nil_r.
    symmetry. apply most_recent_all. lia.
  - rewrite <- E. set (new := toImageFiles _ _ _).
    assert (length new <> 0) as Hnew.
    { subst new. rewrite length_toImageFiles, E. simpl. lia. }
    destruct (Nat.eqb_spec (length new) 0) as [|_]; [contradiction|]. simpl.
    destruct (Z.eqb_spec l 0) as [|_]; [lia|]. simpl.
    destruct (Z.ltb_spec l (Z.of_nat (length (uploadedFiles u ++ new)))) as [Hlt|Hge].
    + apply slice_most_recent. lia.
    + symmetry. apply most_recent_all. lia.
Qed.

(** A slot whose limit is positive never holds more than its limit. *)
Lemma uploader_run_within_limit p (l : Z) acts :
  multiple p = true -> limit p = Some l -> (0 < l)%Z ->
  (Z.of_nat (length (uploadedFiles (uploader_run createObjectURL p acts))) <= l)%Z.
Proof.
  intros Hm Hl Hpos. unfold uploader_run.
  induction acts as [|a acts IH] using rev_ind; [simpl; lia|].
  rewrite fold_left_app. cbn [fold_left].
  set (u := fold_left _ acts _) in *.
  destruct a as [[batch|]|fileName]; cbn [uploader_step].
  - rewrite (handleFiles_multi p l u batch Hm Hl Hpos) by (right; exact IH).
    unfold most_recent. rewrite length_drop. lia.
  - exact IH.
  - pose proof (List.filter_length_le (fun f => negb (JS.eqb (name f) fileName)) (uploadedFiles u)).
    cbn [removeFile uploadedFiles]. lia.
Qed.

(** C10: an add whose batch is empty or holds no image leaves the slot as it
    was, single- or multi-select: the selection is unchanged and no
    [onFilesChange] notification is sent.  The same holds for a [null] file
    list. *)
Theorem add_without_images_changes_nothing p batch u :
  Forall (fun f => is_image f = false) batch ->
  handleFiles createObjectURL p (Some batch) u = u
  /\ handleFiles createObjectURL p None u = u
  /\ uploadedFiles (handleFiles createObjectURL p (Some batch) u) = uploadedFiles u
  /\ onFilesChange (handleFiles createObjectURL p (Some batch) u) = onFilesChange u.
Proof.
  intros H. apply filter_no_images in H.
  rewrite (handleFiles_no_image p batch u H). auto.
Qed.

(** C5, as the code has it: a single-select slot filters the non-image
    files out first; when the batch holds at least one image, the selection
    afterwards is exactly one entry, the last image of the batch, whatever
    was selected before, and that selection is notified. *)
Theorem single_select_keeps_last_image p batch u f :
  multiple p = false ->
  last (List.filter is_image batch) = Some f ->
  exists url,
    uploadedFiles (handleFiles createObjectURL p (Some batch) u)
    = [ {| file := f; preview := url; name := file_name f |} ]
    /\ onFilesChange (handleFiles createObjectURL p (Some batch) u)
       = onFilesChange u ++ [ [ {| file := f; preview := url; name := file_name f |} ] ].
Proof.
  intros Hm Hlast.
  destruct (last_toImageFiles (urls_created u) _ _ Hlast) as [url Hurl].
  exists url. unfold handleFiles. rewrite Hm.
  set (new := toImageFiles _ _ _) in *.
  destruct (Nat.eqb_spec (length new) 0) as [Hz|_].
  { apply nil_length_inv in Hz. rewrite Hz in Hurl. discriminate. }
  simpl. rewrite slice_last, Hurl. auto.
Qed.

(** C4: in a multi-select slot with limit [l], adding a batch of image
    files appends it to the selection; when the count then exceeds [l], the
    [l] most recently added files are kept, in their order, the oldest being
    dropped.  (A slot with limit [l] holds at most [l] files, see
    [uploader_run_within_limit]; an empty batch leaves any slot as it is.) *)
Theorem multi_select_keeps_most_recent p (l : Z) u batch :
  multiple p = true -> limit p = Some l -> (0 < l)%Z ->
  Forall (fun f => is_image f = true) batch ->
  batch <> [] \/ (Z.of_nat (length (uploadedFiles u)) <= l)%Z ->
  let appended := uploadedFiles u ++ toImageFiles createObjectURL (urls_created u) batch in
  let selection := uploadedFiles (handleFiles createObjectURL p (Some batch) u) in
  selection = most_recent (Z.to_nat l) appended
  /\ ((Z.of_nat (length appended) <= l)%Z -> selection = appended)
  /\ ((l < Z.of_nat (length appended))%Z ->
      Z.of_nat (length selection) = l
      /\ exists oldest, appended = oldest ++ selection).
Proof.
  intros Hm Hl Hpos Himg Hst appended selection.
  assert (selection = most_recent (Z.to_nat l) appended) as ->.
  { subst selection appended. rewrite <- (filter_all_images batch Himg) at 2.
    apply handleFiles_multi; auto.
    rewrite (filter_all_images batch Himg). exact Hst. }
  split; [reflexivity|]. split.
  - intros Hle. apply most_recent_all. lia.
  - intros Hlt. split.
    + rewrite most_recent_length; lia.
    + apply most_recent_suffix.
Qed.

End UploaderFacts.

Lemma add_without_images_changes_nothing_witness :
  Forall (fun f => is_image f = false) [notes_txt]
  /\ handleFiles sample_url single_select (Some [notes_txt]) (slot_with [a_png])
     = slot_with [a_png].
Proof.
  split; [repeat constructor|].
  apply (add_without_images_changes_nothing sample_url single_select [notes_txt] (slot_with [a_png])).
  repeat constructor.
Defined.

Lemma single_select_keeps_last_image_witness :
  exists url,
    uploadedFiles (handleFiles sample_url single_select (Some [a_png; notes_txt; b_jpg; notes_txt]) (slot_with [c_png]))
    = [ {| file := b_jpg; preview := url; name := lit "b.jpg" |} ]
    /\ onFilesChange (handleFiles sample_url single_select (Some [a_png; notes_txt; b_jpg; notes_txt]) (slot_with [c_png]))
       = onFilesChange (slot_with [c_png]) ++ [ [ {| file := b_jpg; preview := url; name := lit "b.jpg" |} ] ].
Proof.
  apply (single_select_keeps_last_image sample_url single_select
           [a_png; notes_txt; b_jpg; notes_txt] (slot_with [c_png]) b_jpg);
    reflexivity.
Defined.

(** C5 as stated fails: dropping an image followed by a text file on a
    single-select slot selects the image, which is not the last file of the
    batch. *)
Lemma single_select_last_file_counterexample :
  ~ holds_last_of [a_png; notes_txt]
      (uploadedFiles (handleFiles sample_url single_select (Some [a_png; notes_txt]) (ImageUploader_init))).
Proof. vm_compute. intros H. discriminate H. Qed.

Lemma multi_select_keeps_most_recent_witness :
  uploadedFiles (handleFiles sample_url (multi_select 2) (Some [b_jpg; c_png]) (slot_with [a_png]))
  = [image_of 1 b_jpg; image_of 2 c_png].
Proof.
  apply (multi_select_keeps_most_recent sample_url (multi_select 2) 2 (slot_with [a_png]) [b_jpg; c_png]).
  - reflexivity.
  - reflexivity.
  - lia.
  - repeat constructor.
  - left. discriminate.
Defined.

(** ** The [App] component: the button and the mode tabs *)

Lemma length_eqb_0 {A} (l : list A) : (length l =? 0)%nat = false <-> 1 <= length l.
Proof. destruct l; simpl; split; intros; try lia; try discriminate; reflexivity. Qed.

Lemma eqb_nil_false (t : jsstring) : JS.eqb t [] = false <-> t <> [].
Proof. unfold JS.eqb. rewrite bool_decide_eq_false. reflexivity. Qed.

(** C3: a run may start exactly when no run is in flight and the mode's
    precondition holds: an image on each side in the two paired modes,
    whatever the instruction; an image to edit and an instruction that is not
    empty once trimmed in the editor; such an instruction alone in the
    generator; a poster and such an instruction in poster placement. *)
Theorem run_may_start_iff s :
  may_start s <-> isLoading s = false /\ precondition s.
Proof.
  unfold may_start, isGenerateButtonDisabled, precondition, non_empty.
  destruct (isLoading s); [split; [discriminate|intros [? _]; discriminate]|].
  destruct (mode s); rewrite ?orb_false_iff, ?length_eqb_0, ?eqb_nil_false; tauto.
Qed.

(** An instruction of white space only is empty for the button. *)
Lemma blank_instruction_not_non_empty instruction :
  forallb is_white_space instruction = true -> ~ non_empty instruction.
Proof. intros H Hne. apply Hne. by apply trim_nil. Qed.

(** C6: whatever the state, switching to a mode empties the four image
    selections and the result set, and sets the instruction to the default
    text of the new mode; the loading state is not touched. *)
Theorem mode_switch_resets s newMode :
  let s' := handleModeChange newMode s in
  mode s' = newMode
  /\ models s' = [] /\ outfits s' = [] /\ baseImage s' = [] /\ poster s' = []
  /\ results s' = []
  /\ prompt s' = default_instruction newMode
  /\ isLoading s' = isLoading s /\ loadingMessage s' = loadingMessage s.
Proof. destruct newMode; repeat split. Qed.

(** The first render shows the default instruction of the first mode. *)
Lemma App_init_default : prompt App_init = default_instruction (mode App_init).
Proof. reflexivity. Qed.

(** ** Runs of [handleGenerate] *)

Lemma calls_of_app t1 t2 : calls_of (t1 ++ t2) = calls_of t1 ++ calls_of t2.
Proof. induction t1 as [|[] t1 IH]; simpl; congruence. Qed.

Lemma outcomes_of_app t1 t2 : outcomes_of (t1 ++ t2) = outcomes_of t1 ++ outcomes_of t2.
Proof. induction t1 as [|[] t1 IH]; simpl; congruence. Qed.

Lemma sequential_from_app b t1 t2 :
  sequential_from b t1 = true ->
  sequential_from b (t1 ++ t2) = sequential_from false t2.
Proof.
  revert b. induction t1 as [|e t1 IH]; intros b H; simpl in *.
  - destruct b; [discriminate|reflexivity].
  - destruct e; try (apply IH; exact H);
      apply andb_prop in H as [H1 H2]; rewrite H1; simpl; apply IH; exact H2.
Qed.

Lemma rejection_is_last_lookup os k reason :
  rejection_is_last os = true -> os !! k = Some (Rejected reason) -> S k = length os.
Proof.
  revert k. induction os as [|o os IH]; intros k H Hk; [discriminate|].
  destruct o as [resultSrc|reason'].
  - destruct k as [|k]; [discriminate|]. simpl in *. f_equal. apply IH; assumption.
  - simpl in H. destruct os; [|discriminate].
    destruct k; [reflexivity|discriminate].
Qed.

Lemma fulfilled_no_rejection os k reason :
  forallb is_fulfilled os = true -> os !! k = Some (Rejected reason) -> False.
Proof.
  intros H Hk. rewrite forallb_forall in H.
  apply list_elem_of_lookup_2, list_elem_of_In, H in Hk. discriminate.
Qed.

Section RunFacts.

Variable remote : nat -> Request -> Outcome.

Section Loop.

Context {A : Type}.
Variable msg : nat -> jsstring.
Variable req : A -> Request.
Variable mk : A -> jsstring -> option ResultImage.
Variable body : nat -> A -> list ResultImage -> M (list ResultImage).
Hypothesis body_step :
  forall index x acc w, body index x acc w = unit_step remote msg req mk index x acc w.

(** A loop whose units all succeed: one call per unit in input order,
    one record per unit in the same order, nothing else changed but the
    progress label. *)
Lemma for_entries_fulfilled (l : list A) : forall index acc w,
  (forall i x, l !! i = Some x ->
     exists resultSrc r,
       remote (length (calls_of (trace w)) + i) (req x) = Fulfilled resultSrc
       /\ mk x resultSrc = Some r) ->
  exists rs w',
    for_entries index l body acc w = (inr (acc ++ rs), w')
    /\ calls_of (trace w') = calls_of (trace w) ++ List.map req l
    /\ (strictly_sequential (trace w) = true -> strictly_sequential (trace w') = true)
    /\ length rs = length l
    /\ (forall i x, l !! i = Some x ->
          exists resultSrc r,
            remote (length (calls_of (trace w)) + i) (req x) = Fulfilled resultSrc
            /\ mk x resultSrc = Some r /\ rs !! i = Some r)
    /\ app w' = setLoadingMessage (loadingMessage (app w')) (app w).
Proof.
  induction l as [|x l IH]; intros index acc w Hall.
  - exists [], w. rewrite app_nil_r. simpl. repeat split; auto.
    + by rewrite app_nil_r.
    + intros i x Hi. discriminate.
    + by destruct w as [[]].
  - destruct (Hall 0 x eq_refl) as (resultSrc & r & Ho & Hr).
    rewrite Nat.add_0_r in Ho.
    set (w1 := {| app := setLoadingMessage (msg index) (app w);
                  trace := trace w ++ [LoadingMessage (msg index); Call (req x);
                                       Settle (Fulfilled resultSrc)] |}).
    assert (Hcalls : calls_of (trace w1) = calls_of (trace w) ++ [req x]).
    { subst w1. simpl. by rewrite calls_of_app. }
    destruct (IH (S index) (acc ++ [r]) w1) as (rs & w' & Hrun & Hc & Hs & Hlen & Hrs & Happ).
    { intros i y Hi. rewrite Hcalls, length_app. simpl.
      replace (length (calls_of (trace w)) + 1 + i) with (length (calls_of (trace w)) + S i) by lia.
      apply (Hall (S i) y Hi). }
    exists (r :: rs), w'. split; [|split; [|split; [|split; [|split]]]].
    + simpl. unfold bind. rewrite body_step. unfold unit_step.
      rewrite Ho, Hr. fold w1. rewrite Hrun. by rewrite <- app_assoc.
    + rewrite Hc, Hcalls. by rewrite <- app_assoc.
    + intros Hw. apply Hs. subst w1. unfold strictly_sequential in *. simpl.
      by rewrite (sequential_from_app _ _ _ Hw).
    + simpl. by rewrite Hlen.
    + intros [|i] y Hi.
      * injection Hi as <-. exists resultSrc, r. by rewrite Nat.add_0_r.
      * destruct (Hrs i y Hi) as (src' & r' & Ho' & Hr' & Hl').
        exists src', r'. split; [|split]; auto.
        rewrite Hcalls, length_app in Ho'. simpl in Ho'.
        by replace (length (calls_of (trace w)) + S i)
          with (length (calls_of (trace w)) + 1 + i) by lia.
    + rewrite Happ. by subst w1.
Qed.

(** Any loop: as many settlements as calls, at most one call per unit,
    nothing settled after a rejection, and a loop that completes has seen
    no rejection.  The loop itself only changes the progress label. *)
Lemma for_entries_fail_fast (l : list A) : forall index acc w res w',
  for_entries index l body acc w = (res, w') ->
  exists t',
    trace w' = trace w ++ t'
    /\ length (calls_of t') = length (outcomes_of t')
    /\ length (calls_of t') <= length l
    /\ rejection_is_last (outcomes_of t') = true
    /\ (forall a, res = inr a -> forallb is_fulfilled (outcomes_of t') = true)
    /\ app w' = setLoadingMessage (loadingMessage (app w')) (app w).
Proof.
  induction l as [|x l IH]; intros index acc w res w' Hrun.
  - injection Hrun as <- <-. exists []. rewrite app_nil_r. simpl.
    repeat split; auto. by destruct w as [[]].
  - simpl in Hrun. unfold bind in Hrun. rewrite body_step in Hrun.
    unfold unit_step in Hrun.
    destruct (remote (length (calls_of (trace w))) (req x)) as [resultSrc|reason] eqn:Ho.
    + destruct (mk x resultSrc) as [r|].
      * apply IH in Hrun as (t' & Ht & Hlen & Hle & Hlast & Hok & Happ).
        simpl in Ht, Happ.
        exists ([LoadingMessage (msg index); Call (req x); Settle (Fulfilled resultSrc)] ++ t').
        rewrite Ht, calls_of_app, outcomes_of_app, !length_app. simpl.
        repeat split; auto; try lia.
        -- by rewrite <- app_assoc.
      * injection Hrun as <- <-.
        exists [LoadingMessage (msg index); Call (req x); Settle (Fulfilled resultSrc)].
        simpl. repeat split; auto; try lia; try discriminate.
    + injection Hrun as <- <-.
      exists [LoadingMessage (msg index); Call (req x); Settle (Rejected reason)].
      simpl. repeat split; auto; try lia; try discriminate.
Qed.

End Loop.

(** The bodies of the three loops are [unit_step]s. *)
Ltac body_is_unit_step c :=
  intros index x acc w;
  unfold set_loading_message, await, unit_step, name_of;
  unfold bind, emit, update, ret, throw;
  cbn [app trace]; rewrite calls_of_app; cbn [calls_of]; rewrite app_nil_r;
  match goal with |- context [remote ?n ?r] => destruct (remote n r) end;
  cbn [app trace]; rewrite <- ?app_assoc; cbn [app]; try reflexivity.

Lemma outfit_body c : forall index x acc w,
  (fun index outfit generatedResults =>
     (set_loading_message (lit "Generating " ++ of_nat (length (outfits c)) ++ lit " images... (" ++ of_nat (index + 1) ++ lit " of " ++ of_nat (length (outfits c)) ++ lit ")") ;;
      resultSrc <- await remote (generateVirtualTryOn (models c !! 0) (Some outfit) (prompt c)) ;;
      model_name <- name_of (models c !! 0) ;;
      let resultName := show (split dot model_name !! 0) ++ lit "_" ++ show (split dot (name outfit) !! 0) ++ lit ".png" in
      ret (generatedResults ++ [ {| src := resultSrc; rname := resultName |} ]))%js) index x acc w
  = unit_step remote (outfit_progress c) (outfit_request c) (outfit_record c) index x acc w.
Proof.
  unfold outfit_progress, outfit_request, outfit_record.
  body_is_unit_step c. destruct (models c !! 0); reflexivity.
Qed.

Lemma model_body c : forall index x acc w,
  (fun index model generatedResults =>
     (set_loading_message (lit "Generating " ++ of_nat (length (models c)) ++ lit " images... (" ++ of_nat (index + 1) ++ lit " of " ++ of_nat (length (models c)) ++ lit ")") ;;
      resultSrc <- await remote (generateVirtualTryOn (Some model) (outfits c !! 0) (prompt c)) ;;
      outfit_name <- name_of (outfits c !! 0) ;;
      let resultName := show (split dot (name model) !! 0) ++ lit "_" ++ show (split dot outfit_name !! 0) ++ lit ".png" in
      ret (generatedResults ++ [ {| src := resultSrc; rname := resultName |} ]))%js) index x acc w
  = unit_step remote (model_progress c) (model_request c) (model_record c) index x acc w.
Proof.
  unfold model_progress, model_request, model_record.
  body_is_unit_step c. destruct (outfits c !! 0); reflexivity.
Qed.

Lemma poster_body c : forall index x acc w,
  (fun index p generatedResults =>
     (set_loading_message (lit "Placing " ++ of_nat (length (poster c)) ++ lit " posters... (" ++ of_nat (index + 1) ++ lit " of " ++ of_nat (length (poster c)) ++ lit ")") ;;
      resultSrc <- await remote (placePosterOnWall p (prompt c)) ;;
      let resultName := lit "poster_in_room_" ++ name p in
      ret (generatedResults ++ [ {| src := resultSrc; rname := resultName |} ]))%js) index x acc w
  = unit_step remote (poster_progress c) (poster_request c) (poster_record c) index x acc w.
Proof.
  unfold poster_progress, poster_request, poster_record.
  body_is_unit_step c.
Qed.

Lemma bind_run {A B} (m : M A) (k : A -> M B) w :
  bind m k w = match m w with (inr a, w') => k a w' | (inl e, w') => (inl e, w') end.
Proof. reflexivity. Qed.

Lemma set_loading_message_run msg w :
  set_loading_message msg w
  = (inr tt, {| app := setLoadingMessage msg (app w); trace := trace w ++ [LoadingMessage msg] |}).
Proof. reflexivity. Qed.

Lemma await_run r w :
  await remote r w
  = let o := remote (length (calls_of (trace w))) r in
    (match o with
     | Fulfilled resultSrc => inr resultSrc
     | Rejected reason => inl (Rejection reason)
     end,
     {| app := app w; trace := trace w ++ [Call r; Settle o] |}).
Proof. unfold await. by destruct (remote _ _). Qed.

Ltac pick_mode H :=
  unfold try_block; rewrite H;
  repeat (destruct (decide _) as [?|?]; try congruence).

(** The [try] block in any mode: as many settlements as calls, at most one
    call per work unit, nothing after a rejection; when it completes every
    call was fulfilled, and when it throws the result set is untouched. *)
Lemma try_block_fail_fast c w res w' :
  try_block remote c w = (res, w') ->
  exists t',
    trace w' = trace w ++ t'
    /\ length (calls_of t') = length (outcomes_of t')
    /\ length (calls_of t') <= work_units c
    /\ rejection_is_last (outcomes_of t') = true
    /\ (forall a, res = inr a -> forallb is_fulfilled (outcomes_of t') = true)
    /\ (forall e, res = inl e -> results (app w') = results (app w)).
Proof.
  unfold work_units.
  assert (Hloop : forall A msg req mk body (l : list A) msg0,
    (forall index x acc w, body index x acc w = unit_step remote msg req mk index x acc w) ->
    (set_loading_message msg0 ;;
     generatedResults <- for_entries 0 l body [] ;;
     update (setResults generatedResults))%js w = (res, w') ->
    exists t',
      trace w' = trace w ++ t'
      /\ length (calls_of t') = length (outcomes_of t')
      /\ length (calls_of t') <= length l
      /\ rejection_is_last (outcomes_of t') = true
      /\ (forall a, res = inr a -> forallb is_fulfilled (outcomes_of t') = true)
      /\ (forall e, res = inl e -> results (app w') = results (app w))).
  { intros A msg req mk body l msg0 Hbody Hrun.
    rewrite bind_run, set_loading_message_run, bind_run in Hrun.
    destruct (for_entries 0 l body [] _) as [[e|rs] w2] eqn:Hl;
      apply (for_entries_fail_fast msg req mk body Hbody) in Hl
        as (t' & Ht & Hlen & Hle & Hlast & Hok & Happ);
      cbn [app trace] in Ht, Happ; injection Hrun as <- <-;
      exists (LoadingMessage msg0 :: t'); cbn [app trace calls_of outcomes_of];
      (split; [by rewrite Ht, <- app_assoc|]);
      repeat split; auto; try discriminate.
    - intros _ _. by rewrite Happ.
    - intros a _. by apply (Hok rs). }
  destruct (mode c) eqn:Hmode; intros Hrun; revert Hrun; pick_mode Hmode; intros Hrun.
  - exact (Hloop _ _ _ _ _ _ _ (outfit_body c) Hrun).
  - exact (Hloop _ _ _ _ _ _ _ (model_body c) Hrun).
  - rewrite bind_run, set_loading_message_run, bind_run, await_run in Hrun.
    cbn [app trace] in Hrun. rewrite calls_of_app in Hrun.
    destruct (remote _ _) as [resultSrc|reason]; [destruct (baseImage c !! 0)|];
      injection Hrun as <- <-;
      eexists [LoadingMessage _; Call _; Settle _]; cbn;
      rewrite <- ?app_assoc; repeat split; auto; discriminate.
  - rewrite bind_run, set_loading_message_run, bind_run, await_run in Hrun.
    cbn [app trace] in Hrun. rewrite calls_of_app in Hrun.
    destruct (remote _ _) as [resultSrc|reason];
      injection Hrun as <- <-;
      eexists [LoadingMessage _; Call _; Settle _]; cbn;
      rewrite <- ?app_assoc; repeat split; auto; discriminate.
  - exact (Hloop _ _ _ _ _ _ _ (poster_body c) Hrun).
Qed.

(** A run is its [try] block, then the [catch] block if it threw, then the
    [finally] block. *)
Lemma run_unfold s :
  run remote s =
  match try_block remote s {| app := setResults [] (setIsLoading true s); trace := [] |} with
  | (inr _, w1) =>
      {| app := settled (app w1); trace := trace w1 ++ [LoadingMessage []] |}
  | (inl e, w1) =>
      {| app := settled (app w1);
         trace := trace w1
                  ++ [ConsoleError (lit "Generation failed:") e;
                      Alert (lit "An error occurred during generation. Check the console for details.");
                      LoadingMessage []] |}
  end.
Proof.
  unfold run, handleGenerate, try_catch_finally, catch_block, finally_block,
    set_loading_message, bind, update, emit, settled.
  cbn [app trace].
  destruct (try_block remote s _) as [[e|[]] w1]; cbn [snd app trace].
  - by rewrite <- !app_assoc.
  - reflexivity.
Qed.

(** C2: when the [k]-th call of a run is rejected, it is the last call
    issued (so calls [k+1] to [N] never happen, [N] being the number of work
    units), the result set the run cleared at its start stays empty, whatever
    was accumulated, and the progress indicator is cleared. *)
Theorem failed_call_aborts_run s k reason :
  1 <= k ->
  outcomes_of (trace (run remote s)) !! (k - 1) = Some (Rejected reason) ->
  length (calls_of (trace (run remote s))) = k
  /\ k <= work_units s
  /\ results (app (run remote s)) = []
  /\ isLoading (app (run remote s)) = false
  /\ loadingMessage (app (run remote s)) = [].
Proof.
  intros Hk. rewrite run_unfold.
  destruct (try_block remote s _) as [[e|[]] w1] eqn:Hb;
    apply try_block_fail_fast in Hb as (t' & Ht & Hlen & Hle & Hlast & Hok & Hres);
    cbn [app trace] in *; rewrite Ht; cbn [List.app];
    rewrite outcomes_of_app, calls_of_app; cbn [outcomes_of calls_of];
    rewrite !app_nil_r; intros Hrej.
  - pose proof (rejection_is_last_lookup _ _ _ Hlast Hrej) as Hl.
    unfold settled, setLoadingMessage, setIsLoading.
    cbn [results isLoading loadingMessage].
    rewrite (Hres e eq_refl). repeat split; auto; lia.
  - exfalso. exact (fulfilled_no_rejection _ _ _ (Hok tt eq_refl) Hrej).
Qed.

(** C1: in a paired one-to-many run over the primary image [m] and [N]
    secondary images whose calls are all fulfilled, exactly [N] calls are
    issued, one per secondary image in input order and never while another
    is outstanding, and the result list has [N] entries, the [i]-th carrying
    what the [i]-th call returned under the name
    [{stem of m}_{stem of the i-th secondary}.png]. *)
Theorem one_model_n_outfits_run s m ms :
  mode s = OneModelNOutfits ->
  models s = m :: ms ->
  (forall i o, outfits s !! i = Some o ->
     is_fulfilled (remote i (generateVirtualTryOn (Some m) (Some o) (prompt s))) = true) ->
  calls_of (trace (run remote s))
  = List.map (fun o => generateVirtualTryOn (Some m) (Some o) (prompt s)) (outfits s)
  /\ length (calls_of (trace (run remote s))) = length (outfits s)
  /\ strictly_sequential (trace (run remote s)) = true
  /\ length (results (app (run remote s))) = length (outfits s)
  /\ (forall i o, outfits s !! i = Some o ->
        exists resultSrc,
          remote i (generateVirtualTryOn (Some m) (Some o) (prompt s)) = Fulfilled resultSrc
          /\ results (app (run remote s)) !! i
             = Some {| src := resultSrc;
                       rname := stem (name m) ++ lit "_" ++ stem (name o) ++ lit ".png" |})
  /\ isLoading (app (run remote s)) = false
  /\ loadingMessage (app (run remote s)) = [].
Proof.
  intros Hmode Hmodels Hall. rewrite run_unfold. pick_mode Hmode.
  rewrite bind_run, set_loading_message_run, bind_run.
  match goal with |- context [for_entries 0 _ ?b [] ?w] => set (body := b); set (w1 := w) end.
  assert (Hreq : forall o, outfit_request s o = generateVirtualTryOn (Some m) (Some o) (prompt s)).
  { intros o. unfold outfit_request. by rewrite Hmodels. }
  destruct (for_entries_fulfilled (outfit_progress s) (outfit_request s) (outfit_record s)
              body (outfit_body s) (outfits s) 0 [] w1)
    as (rs & w2 & Hrun & Hc & Hs & Hlen & Hrs & Happ).
  { intros i o Hi. specialize (Hall i o Hi). rewrite Hreq. cbn.
    destruct (remote i _) as [resultSrc|]; [|discriminate].
    exists resultSrc. unfold outfit_record. rewrite Hmodels. cbn. eauto. }
  rewrite Hrun. cbn [app trace List.app update]. cbn in Hc, Hs.
  rewrite calls_of_app, Hc. cbn [calls_of]. rewrite app_nil_r, length_map.
  split; [|split; [|split; [|split; [|split]]]].
  - apply map_ext. exact Hreq.
  - reflexivity.
  - unfold strictly_sequential. rewrite (sequential_from_app false (trace w2)); auto.
  - exact Hlen.
  - intros i o Hi. destruct (Hrs i o Hi) as (resultSrc & r & Ho & Hr & Hl).
    cbn in Ho. rewrite Hreq in Ho. exists resultSrc. split; [exact Ho|].
    change (results (settled (setResults rs (app w2)))) with rs.
    rewrite Hl. unfold outfit_record in Hr. rewrite Hmodels in Hr.
    change ((m :: ms) !! 0) with (Some m) in Hr. cbv iota beta in Hr.
    rewrite !split_dot_first in Hr. injection Hr as <-. reflexivity.
  - split; reflexivity.
Qed.

(** C7: a single-edit run over the selected image whose call is fulfilled
    issues exactly that one call, and its single result is named [edited_]
    followed by the full name of the image, extension included. *)
Theorem single_edit_run s image rest resultSrc :
  mode s = Editor ->
  baseImage s = image :: rest ->
  remote 0 (editImage (Some image) (prompt s)) = Fulfilled resultSrc ->
  calls_of (trace (run remote s)) = [editImage (Some image) (prompt s)]
  /\ results (app (run remote s))
     = [ {| src := resultSrc; rname := lit "edited_" ++ name image |} ]
  /\ isLoading (app (run remote s)) = false
  /\ loadingMessage (app (run remote s)) = [].
Proof.
  intros Hmode Hbase Hok. rewrite run_unfold. pick_mode Hmode.
  rewrite bind_run, set_loading_message_run, bind_run, await_run.
  rewrite Hbase. cbn. rewrite Hok. cbn. auto.
Qed.

(** C8: a prompt-only run needs no image: with an instruction that is not
    empty, and no run in flight, it may start whatever the selections; when
    its call is fulfilled, it is the only call issued and the single result
    is named [generated_image.png]. *)
Theorem prompt_only_run s resultSrc :
  mode s = Generator ->
  isLoading s = false ->
  non_empty (prompt s) ->
  remote 0 (generateImage (prompt s)) = Fulfilled resultSrc ->
  may_start s
  /\ calls_of (trace (run remote s)) = [generateImage (prompt s)]
  /\ results (app (run remote s))
     = [ {| src := resultSrc; rname := lit "generated_image.png" |} ]
  /\ isLoading (app (run remote s)) = false
  /\ loadingMessage (app (run remote s)) = [].
Proof.
  intros Hmode Hidle Hne Hok. split.
  { unfold may_start, isGenerateButtonDisabled. rewrite Hidle, Hmode.
    by apply eqb_nil_false. }
  rewrite run_unfold. pick_mode Hmode.
  rewrite bind_run, set_loading_message_run, bind_run, await_run.
  cbn. rewrite Hok. cbn. auto.
Qed.

End RunFacts.

Lemma one_model_n_outfits_run_witness :
  length (calls_of (trace (run always_ok sample_tryon))) = 3
  /\ strictly_sequential (trace (run always_ok sample_tryon)) = true
  /\ length (results (app (run always_ok sample_tryon))) = 3.
Proof.
  pose proof (one_model_n_outfits_run always_ok sample_tryon anna []
                eq_refl eq_refl (fun i o _ => eq_refl))
    as (_ & Hcalls & Hseq & Hlen & _).
  split; [exact Hcalls|]. split; [exact Hseq | exact Hlen].
Defined.

Example one_model_n_outfits_names :
  List.map rname (results (app (run always_ok sample_tryon)))
  = [lit "anna_a.png"; lit "anna_c.png"; lit "anna_b.png"].
Proof. reflexivity. Qed.

Lemma failed_call_aborts_run_witness :
  outcomes_of (trace (run second_fails sample_tryon)) !! 1 = Some (Rejected (lit "quota exceeded"))
  /\ length (calls_of (trace (run second_fails sample_tryon))) = 2
  /\ 2 <= work_units sample_tryon
  /\ results (app (run second_fails sample_tryon)) = []
  /\ isLoading (app (run second_fails sample_tryon)) = false
  /\ loadingMessage (app (run second_fails sample_tryon)) = [].
Proof.
  split; [reflexivity|].
  apply (failed_call_aborts_run second_fails sample_tryon 2 (lit "quota exceeded")).
  - lia.
  - reflexivity.
Defined.

Lemma single_edit_run_witness :
  results (app (run always_ok sample_editor))
  = [ {| src := lit "data:image/png;base64,0"; rname := lit "edited_anna.v2.jpg" |} ].
Proof.
  pose proof (single_edit_run always_ok sample_editor anna [] (lit "data:image/png;base64,0")
                eq_refl eq_refl eq_refl) as (_ & Hres & _).
  exact Hres.
Defined.

Lemma prompt_only_run_witness :
  may_start sample_generator
  /\ results (app (run always_ok sample_generator))
     = [ {| src := lit "data:image/png;base64,0"; rname := lit "generated_image.png" |} ].
Proof.
  assert (non_empty (prompt sample_generator)) as Hne by (vm_compute; discriminate).
  pose proof (prompt_only_run always_ok sample_generator (lit "data:image/png;base64,0")
                eq_refl eq_refl Hne eq_refl) as (Hstart & _ & Hres & _).
  split; [exact Hstart | exact Hres].
Defined.

(** An empty primary selection: the call is issued with [undefined], and
    reading the name then throws; nothing is kept. *)
Example no_primary_image :
  results (app (run always_ok (setModels [] sample_tryon))) = []
  /\ length (calls_of (trace (run always_ok (setModels [] sample_tryon)))) = 1.
Proof. split; reflexivity. Qed.

(** ** Packaging *)

Section PackagingFacts.

Variables Response Blob : Type.
Variable fetch : nat -> jsstring -> jsstring + Response.
Variable blob : Response -> jsstring + Blob.

Local Abbreviation Packaging := (Packaging Blob).

Lemma issue_fetch_fold images : forall st : Packaging,
  fold_left (fun st image => issue_fetch image st) images st
  = {| fetches := fetches st ++ List.map src images; zip := zip st;
       console := console st; downloads := downloads st |}.
Proof.
  induction images as [|image images IH]; intros st; simpl.
  - rewrite app_nil_r. by destruct st.
  - rewrite IH. simpl. by rewrite <- app_assoc.
Qed.

Lemma omap_cons_option_list {A B} (f : A -> option B) x l :
  omap f (x :: l) = option_list (f x) ++ omap f l.
Proof. change (omap f (x :: l)) with (match f x with Some y => y :: omap f l | None => omap f l end).
       by destruct (f x). Qed.

(** The callbacks that finish, in the order they finish: each adds its
    entry to the archive or its line to the console. *)
Lemma settle_fold images schedule : forall (st : Packaging) content,
  zip st = Some content ->
  fold_left (fun st i => settle fetch blob images i st) schedule st
  = {| fetches := fetches st;
       zip := Some (content ++ omap (fun i => images !! i ≫= archived fetch blob i) schedule);
       console := console st ++ omap (fun i => images !! i ≫= logged fetch blob i) schedule;
       downloads := downloads st |}.
Proof.
  induction schedule as [|i schedule IH]; intros st content Hzip.
  - cbn [fold_left omap list_omap]. rewrite !app_nil_r, <- Hzip. by destruct st.
  - cbn [fold_left].
    assert (settle fetch blob images i st
            = {| fetches := fetches st;
                 zip := Some (content ++ option_list (images !! i ≫= archived fetch blob i));
                 console := console st ++ option_list (images !! i ≫= logged fetch blob i);
                 downloads := downloads st |}) as ->.
    { unfold settle, fetched, archived, logged, zip_file, console_error.
      destruct (images !! i) as [image|]; cbn [mbind option_bind];
        [destruct (fetch i (src image)) as [error|response]; [|destruct (blob response)]|];
        rewrite ?Hzip; cbn [fmap option_fmap option_map option_list];
        rewrite ?app_nil_r; rewrite <- ?Hzip; by destruct st. }
    erewrite IH by (cbn [zip]; reflexivity). cbn [fetches zip console downloads].
    rewrite <- !app_assoc.
    rewrite (omap_cons_option_list (fun i => images !! i ≫= archived fetch blob i) i schedule).
    rewrite (omap_cons_option_list (fun i => images !! i ≫= logged fetch blob i) i schedule).
    reflexivity.
Qed.

Lemma omap_seq_successes images : forall k done,
  length done = k ->
  omap (fun i => (done ++ images) !! i ≫= archived fetch blob i) (seq k (length images))
  = successes fetch blob k images.
Proof.
  induction images as [|image images IH]; intros k done Hk; [reflexivity|].
  cbn [length seq successes].
  rewrite (omap_cons_option_list (fun i => (done ++ image :: images) !! i ≫= archived fetch blob i)).
  rewrite (list_lookup_middle done images image k) by done.
  specialize (IH (S k) (done ++ [image])).
  rewrite <- app_assoc in IH. cbn [List.app] in IH.
  rewrite IH by (rewrite length_app; cbn; lia).
  cbn [mbind option_bind]. by destruct (archived fetch blob k image).
Qed.

Lemma omap_seq_failures images : forall k done,
  length done = k ->
  omap (fun i => (done ++ images) !! i ≫= logged fetch blob i) (seq k (length images))
  = failures fetch blob k images.
Proof.
  induction images as [|image images IH]; intros k done Hk; [reflexivity|].
  cbn [length seq failures].
  rewrite (omap_cons_option_list (fun i => (done ++ image :: images) !! i ≫= logged fetch blob i)).
  rewrite (list_lookup_middle done images image k) by done.
  specialize (IH (S k) (done ++ [image])).
  rewrite <- app_assoc in IH. cbn [List.app] in IH.
  rewrite IH by (rewrite length_app; cbn; lia).
  cbn [mbind option_bind]. by destruct (logged fetch blob k image).
Qed.

(** The [zip.file] calls and the console lines of a packaging run, in
    whatever order the callbacks finish: the items whose fetch succeeded, and
    those whose fetch failed. *)
Lemma zip_file_calls_of_packaging images schedule :
  images <> [] ->
  fair schedule images ->
  exists content,
    downloads (downloadAllAsZip fetch blob schedule images)
    = [(content, lit "virtual-try-on-results.zip")]
    /\ zip (downloadAllAsZip fetch blob schedule images) = Some content
    /\ Permutation content (successes fetch blob 0 images)
    /\ Permutation (console (downloadAllAsZip fetch blob schedule images))
                   (failures fetch blob 0 images)
    /\ fetches (downloadAllAsZip fetch blob schedule images) = List.map src images.
Proof.
  intros Hne Hfair. unfold downloadAllAsZip.
  destruct (Nat.eqb_spec (length images) 0) as [Hz|_].
  { by apply nil_length_inv in Hz. }
  rewrite issue_fetch_fold. cbn [fetches zip console downloads].
  rewrite (settle_fold images schedule _ []) by reflexivity.
  cbn [fetches zip console downloads List.app].
  eexists. split; [reflexivity|]. split; [reflexivity|]. split; [|split; [|reflexivity]].
  - rewrite Hfair. pose proof (omap_seq_successes images 0 [] eq_refl) as H.
    cbn [List.app] in H. by rewrite H.
  - rewrite Hfair. pose proof (omap_seq_failures images 0 [] eq_refl) as H.
    cbn [List.app] in H. by rewrite H.
Qed.

(** Packaging an empty list fetches nothing and creates no archive. *)
Lemma packaging_nothing schedule :
  downloadAllAsZip fetch blob schedule [] = Packaging_init Blob.
Proof. reflexivity. Qed.

End PackagingFacts.

Lemma sample_schedule_fair : fair sample_schedule sample_results.
Proof.
  unfold fair, sample_schedule. simpl.
  eapply perm_trans; [apply perm_swap|]. apply perm_skip, perm_swap.
Defined.

(** ** The archive *)

Lemma JSZip_files_list_to_map {Blob} (calls : list (jsstring * Blob)) :
  JSZip_files calls = list_to_map (rev calls).
Proof. unfold JSZip_files, list_to_map. symmetry. apply fold_left_rev_right. Qed.

(** An entry of the archive comes from a [zip.file] call. *)
Lemma JSZip_files_lookup_call {Blob} (calls : list (jsstring * Blob)) n data :
  JSZip_files calls !! n = Some data -> (n, data) ∈ calls.
Proof.
  rewrite JSZip_files_list_to_map. intros H.
  apply elem_of_list_to_map_2, list_elem_of_In in H.
  by apply list_elem_of_In, in_rev.
Qed.

(** Every name given to [zip.file] has an entry. *)
Lemma JSZip_files_call_is_Some {Blob} (calls : list (jsstring * Blob)) n data :
  (n, data) ∈ calls -> is_Some (JSZip_files calls !! n).
Proof.
  rewrite JSZip_files_list_to_map. intros H.
  apply not_eq_None_Some. intros Hnone. apply not_elem_of_list_to_map in Hnone.
  apply Hnone. apply list_elem_of_fmap. exists (n, data). split; [reflexivity|].
  by apply list_elem_of_In, in_rev, list_elem_of_In in H.
Qed.

(** With one call per name, the entry of a name is the data of its call. *)
Lemma JSZip_files_distinct_names {Blob} (calls : list (jsstring * Blob)) n data :
  NoDup (List.map fst calls) -> (n, data) ∈ calls -> JSZip_files calls !! n = Some data.
Proof.
  rewrite JSZip_files_list_to_map. intros Hnodup H.
  apply elem_of_list_to_map_1; [|by apply list_elem_of_In, in_rev, list_elem_of_In in H].
  change (fst <$> rev calls) with (List.map fst (rev calls)).
  rewrite map_rev. by rewrite <- Permutation_rev.
Qed.

Section ArchiveFacts.

Variables Response Blob : Type.
Variable fetch : nat -> jsstring -> jsstring + Response.
Variable blob : Response -> jsstring + Blob.

Lemma archived_Some i image n data :
  archived fetch blob i image = Some (n, data)
  <-> rname image = n /\ succeeds fetch blob i image data.
Proof.
  unfold archived, succeeds. split.
  - destruct (fetch i (src image)) as [error|response]; [discriminate|].
    destruct (blob response) as [error|data'] eqn:Hb; [discriminate|].
    intros [= <- <-]. eauto.
  - intros [<- (response & -> & ->)]. reflexivity.
Qed.

(** The entries of [successes] are the items that are fetched and read. *)
Lemma elem_of_successes images : forall k n data,
  (n, data) ∈ successes fetch blob k images
  <-> exists j image, images !! j = Some image /\ rname image = n
                      /\ succeeds fetch blob (k + j) image data.
Proof.
  induction images as [|image rest IH]; intros k n data.
  - cbn [successes]. split; [intros H; by apply elem_of_nil in H|].
    intros (j & image & Hj & _). discriminate.
  - cbn [successes]. split.
    + intros H.
      assert ((n, data) ∈ successes fetch blob (S k) rest
              \/ archived fetch blob k image = Some (n, data)) as [Hin|Ha].
      { destruct (archived fetch blob k image) as [entry|]; [|by left].
        apply elem_of_cons in H as [<-|H]; [by right|by left]. }
      * apply IH in Hin as (j & im & Hj & Hn & Hs). exists (S j), im.
        split; [exact Hj|]. split; [exact Hn|]. by replace (k + S j) with (S k + j) by lia.
      * apply archived_Some in Ha as [Hn Hs]. exists 0, image.
        split; [reflexivity|]. split; [exact Hn|]. by rewrite Nat.add_0_r.
    + intros ([|j] & im & Hj & Hn & Hs).
      * injection Hj as <-. rewrite Nat.add_0_r in Hs.
        rewrite (proj2 (archived_Some k image n data) (conj Hn Hs)). by left.
      * assert ((n, data) ∈ successes fetch blob (S k) rest) as Hin.
        { apply IH. exists j, im. split; [exact Hj|]. split; [exact Hn|].
          by replace (S k + j) with (k + S j) by lia. }
        destruct (archived fetch blob k image); [by right|exact Hin].
Qed.

(** C9, as the code and JSZip have it: for a non-empty list of results whose
    fetches all settle, in whatever order the callbacks finish, a failed fetch
    only adds its line to the console and nothing to the archive, and one
    archive is still produced.  Every entry of the archive is an item whose
    fetch succeeded, under its output name; every item whose fetch succeeded
    has an entry under its output name; and when the output names of the
    items whose fetch succeeded are pairwise distinct, the archive holds
    every one of them, each under its name.  (Of succeeded items of one name
    the archive keeps one.) *)
Theorem archive_holds_succeeded_items images schedule :
  images <> [] ->
  fair schedule images ->
  exists calls,
    downloads (downloadAllAsZip fetch blob schedule images)
    = [(calls, lit "virtual-try-on-results.zip")]
    /\ packaged_archive fetch blob schedule images = JSZip_files calls
    /\ Permutation (console (downloadAllAsZip fetch blob schedule images))
                   (failures fetch blob 0 images)
    /\ (forall n data,
          packaged_archive fetch blob schedule images !! n = Some data ->
          exists i image, images !! i = Some image /\ rname image = n
                          /\ succeeds fetch blob i image data)
    /\ (forall i image data,
          images !! i = Some image -> succeeds fetch blob i image data ->
          is_Some (packaged_archive fetch blob schedule images !! rname image))
    /\ (NoDup (List.map fst (successes fetch blob 0 images)) ->
        holds_every_success fetch blob images (packaged_archive fetch blob schedule images)).
Proof.
  intros Hne Hfair.
  destruct (zip_file_calls_of_packaging Response Blob fetch blob images schedule Hne Hfair)
    as (calls & Hd & Hz & Hperm & Hconsole & _).
  exists calls. unfold packaged_archive, holds_every_success. rewrite Hz.
  split; [exact Hd|]. split; [reflexivity|]. split; [exact Hconsole|].
  split; [|split].
  - intros n data H. apply JSZip_files_lookup_call in H.
    rewrite Hperm in H. apply elem_of_successes in H. exact H.
  - intros i image data Hi Hs. apply (JSZip_files_call_is_Some calls _ data).
    rewrite Hperm. apply elem_of_successes. by exists i, image.
  - intros Hnodup i image data Hi Hs. apply JSZip_files_distinct_names.
    + change (List.map fst calls) with (fst <$> calls).
      change (List.map fst ?l) with (fst <$> l) in Hnodup. by rewrite Hperm.
    + rewrite Hperm. apply elem_of_successes. by exists i, image.
Qed.

End ArchiveFacts.

Lemma sample_success_names_distinct :
  NoDup (List.map fst (successes sample_fetch sample_blob 0 sample_results)).
Proof.
  change (NoDup [lit "anna_a.png"; lit "anna_b.png"]).
  apply NoDup_cons. split.
  - intros H. apply list_elem_of_singleton in H. discriminate H.
  - apply NoDup_singleton.
Defined.

Lemma archive_holds_succeeded_items_witness :
  packaged_archive sample_fetch sample_blob sample_schedule sample_results !! lit "anna_b.png"
  = Some [2%N]
  /\ packaged_archive sample_fetch sample_blob sample_schedule sample_results !! lit "anna_c.png"
     = None.
Proof.
  destruct (archive_holds_succeeded_items nat (list N) sample_fetch sample_blob
              sample_results sample_schedule)
    as (calls & _ & _ & _ & Hfrom & _ & Hall).
  - discriminate.
  - exact sample_schedule_fair.
  - split.
    + apply (Hall sample_success_names_distinct 2
               {| src := lit "data:2"; rname := lit "anna_b.png" |} [2%N] eq_refl).
      by exists 2.
    + destruct (packaged_archive _ _ _ _ !! lit "anna_c.png") as [data|] eqn:E; [|reflexivity].
      destruct (Hfrom _ _ E) as (i & image & Hi & Hn & (response & Hf & _)).
      destruct i as [|[|[|i]]]; try discriminate; injection Hi as <-; discriminate.
Defined.

(** C9 as stated fails: of two results that have the same output name and
    are both fetched, the archive holds one entry, in whichever order the
    callbacks finish; the other item is not in it. *)
Lemma twin_names_counterexample :
  fair [0; 1] twin_results /\ fair [1; 0] twin_results
  /\ ~ holds_every_success serving_fetch sample_blob twin_results
        (packaged_archive serving_fetch sample_blob [0; 1] twin_results)
  /\ ~ holds_every_success serving_fetch sample_blob twin_results
        (packaged_archive serving_fetch sample_blob [1; 0] twin_results).
Proof.
  split; [apply Permutation_refl|]. split; [apply perm_swap|]. split.
  - intros H.
    specialize (H 0 {| src := lit "data:0"; rname := lit "anna_a.png" |} [0%N] eq_refl
                  (ex_intro _ 0 (conj eq_refl eq_refl))).
    vm_compute in H. discriminate H.
  - intros H.
    specialize (H 1 {| src := lit "data:1"; rname := lit "anna_a.png" |} [1%N] eq_refl
                  (ex_intro _ 1 (conj eq_refl eq_refl))).
    vm_compute in H. discriminate H.
Qed.

Example sample_archive :
  zip (downloadAllAsZip sample_fetch sample_blob sample_schedule sample_results)
  = Some [(lit "anna_b.png", [2%N]); (lit "anna_a.png", [0%N])]
  /\ successes sample_fetch sample_blob 0 sample_results
     = [(lit "anna_a.png", [0%N]); (lit "anna_b.png", [2%N])]
  /\ List.map snd (console (downloadAllAsZip sample_fetch sample_blob sample_schedule sample_results))
     = [lit "TypeError: Failed to fetch"].
Proof. repeat split. Qed.

(** ** Examples on the JavaScript helpers *)

Example split_example :
  split dot (lit "anna.v2.jpg") = [lit "anna"; lit "v2"; lit "jpg"].
Proof. reflexivity. Qed.

Example trim_example : trim (lit "  a b  ") = lit "a b".
Proof. reflexivity. Qed.

Example slice_example :
  slice (-1) [1; 2; 3] = [3] /\ slice 5 [1; 2; 3] = [] /\ slice (-7) [1; 2; 3] = [1; 2; 3].
Proof. repeat split. Qed.

(** * Further properties *)

(** ** The upload slot: removal, invariants, composition *)

Lemma slice_is_drop {A} (start : Z) (l : list A) : exists k, slice start l = drop k l.
Proof. unfold slice. eauto. Qed.

Lemma filter_sublist {A} (f : A -> bool) (l : list A) : sublist (List.filter f l) l.
Proof.
  induction l as [|x l IH]; simpl; [constructor|].
  destruct (f x); by constructor.
Qed.

Lemma filter_names_differ (n : jsstring) (l : list ImageFile) :
  Forall (fun e => name e <> n) l ->
  List.filter (fun f => negb (JS.eqb (name f) n)) l = l.
Proof.
  induction 1 as [|e l He _ IH]; simpl; [reflexivity|].
  unfold JS.eqb at 1. rewrite bool_decide_eq_false_2 by exact He. simpl. by rewrite IH.
Qed.

Lemma most_recent_most_recent {A} (l : nat) (a b : list A) :
  most_recent l (most_recent l a ++ b) = most_recent l (a ++ b).
Proof.
  unfold most_recent. rewrite !length_app, length_drop.
  destruct (decide (length a <= l)) as [Hle|Hgt].
  - replace (length a - l) with 0 by lia. simpl. f_equal. lia.
  - rewrite !drop_app, length_drop, drop_drop.
    replace (length a - l + (length a - (length a - l) + length b - l))
      with (length a + length b - l) by lia.
    f_equal. f_equal. lia.
Qed.

Section UploaderMore.

Variable createObjectURL : nat -> File -> jsstring.

Lemma toImageFiles_app n a b :
  toImageFiles createObjectURL n (a ++ b)
  = toImageFiles createObjectURL n a ++ toImageFiles createObjectURL (n + length a) b.
Proof.
  revert n. induction a as [|x a IH]; intros n; simpl.
  - by rewrite Nat.add_0_r.
  - rewrite IH. do 3 f_equal. lia.
Qed.

Lemma Forall_toImageFiles n files :
  Forall (fun f => is_image f = true) files ->
  Forall entry_ok (toImageFiles createObjectURL n files).
Proof.
  intros H. revert n. induction H as [|f files Hf _ IH]; intros n; simpl; constructor; auto.
  by split.
Qed.

Lemma Forall_filter_is_image batch :
  Forall (fun f => is_image f = true) (List.filter is_image batch).
Proof. apply Forall_forall. intros f Hf. by apply list_elem_of_In, filter_In in Hf as [_ ?]. Qed.

(** An add either changes nothing or notifies the selection it sets. *)
Lemma handleFiles_cases p files u :
  handleFiles createObjectURL p files u = u
  \/ onFilesChange (handleFiles createObjectURL p files u)
     = onFilesChange u ++ [uploadedFiles (handleFiles createObjectURL p files u)].
Proof.
  unfold handleFiles. destruct files as [files|]; [|by left].
  destruct (length _ =? 0)%nat; [by left|by right].
Qed.

Lemma handleFiles_urls p batch u :
  urls_created (handleFiles createObjectURL p (Some batch) u)
  = urls_created u + length (List.filter is_image batch).
Proof.
  unfold handleFiles. rewrite length_toImageFiles.
  destruct (Nat.eqb_spec (length (List.filter is_image batch)) 0) as [->|_]; simpl; lia.
Qed.

Lemma handleFiles_entries p files u :
  Forall entry_ok (uploadedFiles u) ->
  Forall entry_ok (uploadedFiles (handleFiles createObjectURL p files u)).
Proof.
  intros Hu. unfold handleFiles. destruct files as [batch|]; [|exact Hu].
  pose proof (Forall_toImageFiles (urls_created u) _ (Forall_filter_is_image batch)) as Hnew.
  destruct (length _ =? 0)%nat; [exact Hu|]. cbn [uploadedFiles].
  destruct (multiple p).
  - destruct (limit p) as [l|]; [destruct (_ && _)|]; unfold slice;
      try apply Forall_drop; by apply Forall_app.
  - unfold slice. by apply Forall_drop.
Qed.

(** A multi-select slot whose limit is absent or 0 appends and never
    truncates. *)
Lemma handleFiles_unlimited p batch u :
  multiple p = true -> limit p = None \/ limit p = Some 0%Z ->
  uploadedFiles (handleFiles createObjectURL p (Some batch) u)
  = uploadedFiles u ++ toImageFiles createObjectURL (urls_created u) (List.filter is_image batch).
Proof.
  intros Hm Hl. unfold handleFiles. rewrite Hm.
  destruct (List.filter is_image batch) as [|f images] eqn:E.
  - simpl. by rewrite app_nil_r.
  - rewrite <- E.
    destruct (Nat.eqb_spec (length (toImageFiles createObjectURL (urls_created u)
                                       (List.filter is_image batch))) 0) as [Hz|_].
    { rewrite length_toImageFiles, E in Hz. discriminate. }
    by destruct Hl as [-> | ->].
Qed.

(** A single-select slot takes the last image of the batch, if any. *)
Lemma handleFiles_single p batch u :
  multiple p = false ->
  uploadedFiles (handleFiles createObjectURL p (Some batch) u)
  = match last (toImageFiles createObjectURL (urls_created u) (List.filter is_image batch)) with
    | Some e => [e]
    | None => uploadedFiles u
    end.
Proof.
  intros Hm. unfold handleFiles. rewrite Hm.
  set (new := toImageFiles _ _ _).
  destruct (Nat.eqb_spec (length new) 0) as [Hz|Hnz].
  - apply nil_length_inv in Hz. by rewrite Hz.
  - cbn [uploadedFiles]. rewrite slice_last.
    destruct (last new) eqn:E; [reflexivity|].
    apply last_None in E. by rewrite E in Hnz.
Qed.

(** X1: [removeFile] removes every entry of that name, not only the first
    one; the entries of other names stay, in their order, and the new
    selection is notified. *)
Theorem remove_file_removes_every_match fileName u :
  Forall (fun e => name e <> fileName) (uploadedFiles (removeFile fileName u))
  /\ (forall e, e ∈ uploadedFiles u -> name e <> fileName ->
        e ∈ uploadedFiles (removeFile fileName u))
  /\ sublist (uploadedFiles (removeFile fileName u)) (uploadedFiles u)
  /\ onFilesChange (removeFile fileName u)
     = onFilesChange u ++ [uploadedFiles (removeFile fileName u)].
Proof.
  unfold removeFile. cbn [uploadedFiles onFilesChange].
  split; [|split; [|split]].
  - apply Forall_forall. intros e He.
    apply list_elem_of_In, filter_In in He as [_ He].
    apply negb_true_iff in He. unfold JS.eqb in He. by apply bool_decide_eq_false in He.
  - intros e He Hne. apply list_elem_of_In, filter_In. split; [by apply list_elem_of_In|].
    apply negb_true_iff. unfold JS.eqb. by apply bool_decide_eq_false.
  - apply filter_sublist.
  - reflexivity.
Qed.

(** X2: removing a name the slot does not hold leaves the selection as it
    is, and still sends a notification, with that same selection. *)
Theorem remove_absent_name_still_notifies fileName u :
  Forall (fun e => name e <> fileName) (uploadedFiles u) ->
  uploadedFiles (removeFile fileName u) = uploadedFiles u
  /\ onFilesChange (removeFile fileName u) = onFilesChange u ++ [uploadedFiles u].
Proof.
  intros H. unfold removeFile. cbn [uploadedFiles onFilesChange].
  by rewrite (filter_names_differ _ _ H).
Qed.

(** X3: after any sequence of adds and removals from a fresh mount, the
    last notification sent to the parent is the current selection; while
    none has been sent the selection is empty. *)
Theorem parent_sees_current_selection p acts :
  match last (onFilesChange (uploader_run createObjectURL p acts)) with
  | Some selection => selection = uploadedFiles (uploader_run createObjectURL p acts)
  | None => uploadedFiles (uploader_run createObjectURL p acts) = []
  end.
Proof.
  unfold uploader_run.
  induction acts as [|a acts IH] using rev_ind; [reflexivity|].
  rewrite fold_left_app. cbn [fold_left].
  set (u := fold_left _ acts _) in *.
  destruct a as [files|fileName]; cbn [uploader_step].
  - destruct (handleFiles_cases p files u) as [-> | ->]; [exact IH|].
    by rewrite last_snoc.
  - unfold removeFile. cbn [uploadedFiles onFilesChange]. by rewrite last_snoc.
Qed.

(** X4: whatever is dropped on it, a slot only ever holds images, each
    named after its file. *)
Theorem slot_holds_only_images p acts :
  Forall entry_ok (uploadedFiles (uploader_run createObjectURL p acts)).
Proof.
  unfold uploader_run.
  induction acts as [|a acts IH] using rev_ind; [constructor|].
  rewrite fold_left_app. cbn [fold_left].
  set (u := fold_left _ acts _) in *.
  destruct a as [files|fileName]; cbn [uploader_step].
  - by apply handleFiles_entries.
  - unfold removeFile. cbn [uploadedFiles].
    apply Forall_forall. intros e He. apply list_elem_of_In, filter_In in He as [He _].
    rewrite Forall_forall in IH. by apply IH, list_elem_of_In.
Qed.

Lemma toImageFiles_lookup n files k :
  toImageFiles createObjectURL n files !! k
  = (fun f => {| file := f; preview := createObjectURL (n + k) f; name := file_name f |})
      <$> files !! k.
Proof.
  revert n k. induction files as [|f files IH]; intros n [|k]; try reflexivity.
  - simpl. by rewrite Nat.add_0_r.
  - simpl. rewrite IH. by replace (S n + k) with (n + S k) by lia.
Qed.

(** X5: every entry an add puts into the selection is an image of the
    batch with the object URL that [URL.createObjectURL] returned for that
    very file, at the call whose number is the position of the file among the
    images of the batch: the calls are made for the images of the batch in
    order, also for those a single-select slot or a limit then discards, and
    the other entries are those the slot held before. *)
Theorem entries_carry_their_object_url p batch u :
  forall e,
    e ∈ uploadedFiles (handleFiles createObjectURL p (Some batch) u) ->
    e ∈ uploadedFiles u
    \/ exists k f,
         List.filter is_image batch !! k = Some f
         /\ e = {| file := f; preview := createObjectURL (urls_created u + k) f;
                   name := file_name f |}.
Proof.
  intros e He.
  assert (e ∈ uploadedFiles u
          \/ e ∈ toImageFiles createObjectURL (urls_created u) (List.filter is_image batch))
    as [Hold|Hnew].
  { revert He. unfold handleFiles.
    destruct (length _ =? 0)%nat; [by left|]. cbn [uploadedFiles].
    destruct (multiple p).
    - destruct (limit p) as [l|]; [destruct (_ && _)|]; unfold slice; intros He;
        try apply subseteq_drop in He; by apply elem_of_app in He.
    - unfold slice. intros He. apply subseteq_drop in He. by right. }
  - by left.
  - right. apply list_elem_of_lookup_1 in Hnew as [k Hk].
    rewrite toImageFiles_lookup in Hk.
    destruct (List.filter is_image batch !! k) as [f|] eqn:Hf; [|discriminate].
    injection Hk as <-. by exists k, f.
Qed.

(** X6: a multi-select slot whose limit is absent, or 0, appends the images
    of the batch and never truncates. *)
Theorem unlimited_slot_appends p batch u :
  multiple p = true -> limit p = None \/ limit p = Some 0%Z ->
  uploadedFiles (handleFiles createObjectURL p (Some batch) u)
  = uploadedFiles u ++ toImageFiles createObjectURL (urls_created u) (List.filter is_image batch).
Proof. apply handleFiles_unlimited. Qed.

(** X7: with a negative limit, every add that brings an image empties the
    slot, and the parent is notified of the empty selection. *)
Theorem negative_limit_empties_slot p (l : Z) batch u :
  multiple p = true -> limit p = Some l -> (l < 0)%Z ->
  List.filter is_image batch <> [] ->
  uploadedFiles (handleFiles createObjectURL p (Some batch) u) = []
  /\ onFilesChange (handleFiles createObjectURL p (Some batch) u) = onFilesChange u ++ [[]].
Proof.
  intros Hm Hl Hneg Hne. unfold handleFiles. rewrite Hm, Hl.
  set (new := toImageFiles _ _ _).
  assert (length new <> 0) as Hnew.
  { subst new. rewrite length_toImageFiles. by destruct (List.filter is_image batch). }
  destruct (Nat.eqb_spec (length new) 0) as [|_]; [contradiction|].
  destruct (Z.eqb_spec l 0) as [|_]; [lia|].
  destruct (Z.ltb_spec l (Z.of_nat (length (uploadedFiles u ++ new)))) as [_|]; [|lia].
  cbn [negb andb uploadedFiles onFilesChange].
  assert (slice (Z.of_nat (length (uploadedFiles u ++ new)) - l) (uploadedFiles u ++ new) = []) as ->.
  { unfold slice. apply drop_ge.
    destruct (Z.ltb_spec (Z.of_nat (length (uploadedFiles u ++ new)) - l) 0); lia. }
  by split.
Qed.

(** X8: two adds in a row select what one add of the two batches put end
    to end selects, and create as many object URLs: in a single-select slot,
    and in a multi-select slot whose limit is absent, 0, or positive and
    respected by the selection. *)
Theorem two_adds_are_one_add p b1 b2 u :
  (multiple p = true -> limit_respected p u) ->
  uploadedFiles (handleFiles createObjectURL p (Some b2) (handleFiles createObjectURL p (Some b1) u))
  = uploadedFiles (handleFiles createObjectURL p (Some (b1 ++ b2)) u)
  /\ urls_created (handleFiles createObjectURL p (Some b2) (handleFiles createObjectURL p (Some b1) u))
     = urls_created (handleFiles createObjectURL p (Some (b1 ++ b2)) u).
Proof.
  intros H. split.
  2:{ rewrite !handleFiles_urls, List.filter_app, length_app. lia. }
  destruct (multiple p) eqn:Hm.
  - specialize (H eq_refl). unfold limit_respected in H.
    assert (Hunl : limit p = None \/ limit p = Some 0%Z ->
      uploadedFiles (handleFiles createObjectURL p (Some b2) (handleFiles createObjectURL p (Some b1) u))
      = uploadedFiles (handleFiles createObjectURL p (Some (b1 ++ b2)) u)).
    { intros Hl. rewrite !(handleFiles_unlimited p _ _ Hm Hl), handleFiles_urls.
      rewrite List.filter_app, toImageFiles_app. by rewrite app_assoc. }
    destruct (limit p) as [l|] eqn:Hl; [|by apply Hunl; left].
    destruct H as [-> | [Hpos Hle]]; [by apply Hunl; right|].
    assert (Z.of_nat (length (uploadedFiles (handleFiles createObjectURL p (Some b1) u))) <= l)%Z as Hle1.
    { rewrite (handleFiles_multi createObjectURL p l u b1 Hm Hl Hpos) by (by right).
      unfold most_recent. rewrite length_drop. lia. }
    rewrite (handleFiles_multi createObjectURL p l _ b2 Hm Hl Hpos) by (by right).
    rewrite (handleFiles_multi createObjectURL p l u b1 Hm Hl Hpos) by (by right).
    rewrite (handleFiles_multi createObjectURL p l u (b1 ++ b2) Hm Hl Hpos) by (by right).
    rewrite handleFiles_urls, List.filter_app, toImageFiles_app, most_recent_most_recent.
    by rewrite app_assoc.
  - rewrite (handleFiles_single p b2 _ Hm), (handleFiles_single p b1 u Hm),
      (handleFiles_single p (b1 ++ b2) u Hm).
    rewrite handleFiles_urls, List.filter_app, toImageFiles_app, last_app.
    by destruct (last (toImageFiles createObjectURL _ (List.filter is_image b2))).
Qed.

(** X9: in a multi-select slot with room for one more file, adding an image
    whose name the slot does not hold and removing it by name gives the
    selection back. *)
Theorem add_then_remove_restores p f u :
  multiple p = true ->
  (limit p = None \/ limit p = Some 0%Z
   \/ exists l, limit p = Some l /\ (Z.of_nat (length (uploadedFiles u)) < l)%Z) ->
  is_image f = true ->
  Forall (fun e => name e <> file_name f) (uploadedFiles u) ->
  uploadedFiles (removeFile (file_name f) (handleFiles createObjectURL p (Some [f]) u))
  = uploadedFiles u.
Proof.
  intros Hm Hl Hf Hnames.
  assert (List.filter is_image [f] = [f]) as Hfilter by (simpl; by rewrite Hf).
  assert (uploadedFiles (handleFiles createObjectURL p (Some [f]) u)
          = uploadedFiles u
            ++ [ {| file := f; preview := createObjectURL (urls_created u) f; name := file_name f |} ])
    as Hadd.
  { destruct Hl as [Hl|[Hl|(l & Hl & Hroom)]].
    - rewrite (handleFiles_unlimited p _ _ Hm (or_introl Hl)). by rewrite Hfilter.
    - rewrite (handleFiles_unlimited p _ _ Hm (or_intror Hl)). by rewrite Hfilter.
    - rewrite (handleFiles_multi createObjectURL p l u [f] Hm Hl) by (try lia; left; by rewrite Hfilter).
      rewrite Hfilter. apply most_recent_all. rewrite length_app. simpl. lia. }
  unfold removeFile. cbn [uploadedFiles]. rewrite Hadd, List.filter_app.
  rewrite (filter_names_differ _ _ Hnames). simpl.
  unfold JS.eqb. rewrite bool_decide_eq_true_2 by reflexivity. simpl. by rewrite app_nil_r.
Qed.

(** X10: in a single-select slot an add replaces the selection for good:
    adding an image and removing it by name leaves the slot empty, whatever it
    held before. *)
Theorem single_add_then_remove_empties p f u :
  multiple p = false ->
  is_image f = true ->
  uploadedFiles (removeFile (file_name f) (handleFiles createObjectURL p (Some [f]) u)) = [].
Proof.
  intros Hm Hf. unfold removeFile. cbn [uploadedFiles].
  rewrite (handleFiles_single p [f] u Hm). simpl. rewrite Hf. simpl.
  unfold JS.eqb. by rewrite bool_decide_eq_true_2.
Qed.

(** X11: drag events only move the highlight, and a drop always ends it,
    also when the dropped files are refused; for the rest a drop is an add. *)
Theorem drop_ends_drag_and_adds p type files u :
  uploadedFiles (handleDrag type u) = uploadedFiles u
  /\ onFilesChange (handleDrag type u) = onFilesChange u
  /\ dragActive (handleDrop createObjectURL p files u) = false
  /\ uploadedFiles (handleDrop createObjectURL p files u)
     = uploadedFiles (handleFiles createObjectURL p files u)
  /\ onFilesChange (handleDrop createObjectURL p files u)
     = onFilesChange (handleFiles createObjectURL p files u).
Proof.
  split; [|split].
  1,2: unfold handleDrag; by destruct (_ || _); [|destruct (JS.eqb _ _)].
  unfold handleDrop, handleFiles. destruct files as [batch|]; [|by repeat split].
  cbn [urls_created uploadedFiles onFilesChange dragActive].
  by destruct (length _ =? 0)%nat.
Qed.

End UploaderMore.

Lemma remove_absent_name_still_notifies_witness :
  uploadedFiles (removeFile (lit "zzz.png") (slot_with [a_png; b_jpg]))
  = uploadedFiles (slot_with [a_png; b_jpg])
  /\ length (onFilesChange (removeFile (lit "zzz.png") (slot_with [a_png; b_jpg]))) = 2.
Proof.
  pose proof (remove_absent_name_still_notifies (lit "zzz.png") (slot_with [a_png; b_jpg])) as H.
  destruct H as [Hsel Hn]; [repeat constructor; discriminate|].
  split; [exact Hsel|]. rewrite Hn. reflexivity.
Defined.

Lemma entries_carry_their_object_url_witness :
  image_of 2 b_jpg ∈ uploadedFiles (slot_with [c_png])
  \/ exists k f,
       List.filter is_image [a_png; notes_txt; b_jpg] !! k = Some f
       /\ image_of 2 b_jpg
          = {| file := f; preview := sample_url (urls_created (slot_with [c_png]) + k) f;
               name := file_name f |}.
Proof.
  apply (entries_carry_their_object_url sample_url single_select [a_png; notes_txt; b_jpg]
           (slot_with [c_png]) (image_of 2 b_jpg)).
  change (image_of 2 b_jpg ∈ [image_of 2 b_jpg]). apply list_elem_of_singleton. reflexivity.
Defined.

Lemma unlimited_slot_appends_witness :
  uploadedFiles (handleFiles sample_url (multi_select 0) (Some [b_jpg; notes_txt; c_png]) (slot_with [a_png]))
  = [image_of 0 a_png; image_of 1 b_jpg; image_of 2 c_png].
Proof.
  apply (unlimited_slot_appends sample_url (multi_select 0) [b_jpg; notes_txt; c_png] (slot_with [a_png])).
  - reflexivity.
  - right. reflexivity.
Defined.

Lemma negative_limit_empties_slot_witness :
  uploadedFiles (handleFiles sample_url (multi_select (-1)) (Some [b_jpg]) (slot_with [a_png])) = [].
Proof.
  apply (negative_limit_empties_slot sample_url (multi_select (-1)) (-1) [b_jpg] (slot_with [a_png])).
  - reflexivity.
  - reflexivity.
  - lia.
  - discriminate.
Defined.

Lemma two_adds_are_one_add_witness :
  uploadedFiles (handleFiles sample_url (multi_select 2) (Some [c_png])
                   (handleFiles sample_url (multi_select 2) (Some [b_jpg; notes_txt]) (slot_with [a_png])))
  = uploadedFiles (handleFiles sample_url (multi_select 2) (Some [b_jpg; notes_txt; c_png]) (slot_with [a_png])).
Proof.
  apply (two_adds_are_one_add sample_url (multi_select 2) [b_jpg; notes_txt] [c_png] (slot_with [a_png])).
  intros _. right. split; [lia|]. simpl. lia.
Defined.

Lemma add_then_remove_restores_witness :
  uploadedFiles (removeFile (lit "b.jpg")
                   (handleFiles sample_url (multi_select 2) (Some [b_jpg]) (slot_with [a_png])))
  = uploadedFiles (slot_with [a_png]).
Proof.
  apply (add_then_remove_restores sample_url (multi_select 2) b_jpg (slot_with [a_png])).
  - reflexivity.
  - right. right. exists 2%Z. split; [reflexivity|]. simpl. lia.
  - reflexivity.
  - repeat constructor. discriminate.
Defined.

Lemma single_add_then_remove_empties_witness :
  uploadedFiles (removeFile (lit "b.jpg")
                   (handleFiles sample_url single_select (Some [b_jpg]) (slot_with [a_png])))
  = [].
Proof.
  apply (single_add_then_remove_empties sample_url single_select b_jpg (slot_with [a_png]));
    reflexivity.
Defined.


(** ** Runs of [handleGenerate]: every mode, failures, edge cases *)

Lemma alerts_of_app t1 t2 : alerts_of (t1 ++ t2) = alerts_of t1 ++ alerts_of t2.
Proof. induction t1 as [|[] t1 IH]; simpl; congruence. Qed.

Lemma console_errors_of_app t1 t2 :
  console_errors_of (t1 ++ t2) = console_errors_of t1 ++ console_errors_of t2.
Proof. induction t1 as [|[] t1 IH]; simpl; congruence. Qed.

Lemma same_inputs_refl a : same_inputs a a.
Proof. by repeat split. Qed.

Lemma same_inputs_progress a b msg rs :
  a = setLoadingMessage msg b -> same_inputs (setResults rs a) b /\ same_inputs a b.
Proof. intros ->. by repeat split. Qed.

(** When the button is enabled there is work to do and the image read with
    [arr[0]] is there. *)
Lemma may_start_work s : may_start s -> 1 <= work_units s /\ ~ primary_missing s.
Proof.
  unfold may_start, isGenerateButtonDisabled, work_units, primary_missing.
  destruct (isLoading s); [discriminate|].
  destruct (mode s); rewrite ?orb_false_iff, ?length_eqb_0.
  - intros [Hm Ho]. split; [exact Ho|]. intros [Hnil _]. rewrite Hnil in Hm. simpl in Hm. lia.
  - intros [Hm Ho]. split; [exact Hm|]. intros [Hnil _]. rewrite Hnil in Ho. simpl in Ho. lia.
  - intros [Hb _]. split; [lia|]. intros Hnil. rewrite Hnil in Hb. simpl in Hb. lia.
  - intros _. split; [lia|tauto].
  - intros [Hp _]. split; [exact Hp|tauto].
Qed.

Section RunMore.

Variable remote : nat -> Request -> Outcome.

Section LoopShape.

Context {A : Type}.
Variable msg : nat -> jsstring.
Variable req : A -> Request.
Variable mk : A -> jsstring -> option ResultImage.
Variable body : nat -> A -> list ResultImage -> M (list ResultImage).
Hypothesis body_step :
  forall index x acc w, body index x acc w = unit_step remote msg req mk index x acc w.

(** What any loop leaves in the trace: calls answered one at a time, no
    alert, no console line, a call as soon as there is a unit; a loop that
    completes has pushed one record per unit, and one that throws a
    [TypeError] met a unit it could not name. *)
Lemma for_entries_shape (l : list A) : forall index acc w res w',
  for_entries index l body acc w = (res, w') ->
  exists t',
    trace w' = trace w ++ t'
    /\ sequential_from false t' = true
    /\ alerts_of t' = [] /\ console_errors_of t' = []
    /\ app w' = setLoadingMessage (loadingMessage (app w')) (app w)
    /\ (l <> [] -> 1 <= length (calls_of t'))
    /\ (forall a, res = inr a ->
          length a = length acc + length l /\ length (calls_of t') = length l)
    /\ (res = inl TypeError -> exists x resultSrc, x ∈ l /\ mk x resultSrc = None).
Proof.
  induction l as [|x l IH]; intros index acc w res w' Hrun.
  - injection Hrun as <- <-. exists []. rewrite app_nil_r. simpl.
    split; [reflexivity|]. split; [reflexivity|]. split; [reflexivity|].
    split; [reflexivity|]. split; [by destruct w as [[]]|].
    split; [congruence|]. split; [|discriminate].
    intros a [= <-]. split; [lia|reflexivity].
  - simpl in Hrun. unfold bind in Hrun. rewrite body_step in Hrun.
    unfold unit_step in Hrun.
    destruct (remote (length (calls_of (trace w))) (req x)) as [resultSrc|reason] eqn:Ho.
    + destruct (mk x resultSrc) as [r|] eqn:Hr.
      * apply IH in Hrun as (t' & Ht & Hseq & Hal & Hce & Happ & _ & Hok & Hty).
        simpl in Ht, Happ.
        exists ([LoadingMessage (msg index); Call (req x); Settle (Fulfilled resultSrc)] ++ t').
        rewrite Ht, calls_of_app, alerts_of_app, console_errors_of_app, Hal, Hce.
        split; [by rewrite <- app_assoc|]. split; [exact Hseq|].
        split; [reflexivity|]. split; [reflexivity|]. split; [exact Happ|].
        split; [simpl; lia|]. split.
        -- intros a Ha. destruct (Hok a Ha) as [H1 H2].
           rewrite length_app in H1. simpl in *. lia.
        -- intros Hty'. destruct (Hty Hty') as (y & s' & Hy & Hmk).
           exists y, s'. split; [by right|exact Hmk].
      * injection Hrun as <- <-.
        exists [LoadingMessage (msg index); Call (req x); Settle (Fulfilled resultSrc)].
        simpl. repeat split; auto; try discriminate.
        intros _. exists x, resultSrc. split; [by left|exact Hr].
    + injection Hrun as <- <-.
      exists [LoadingMessage (msg index); Call (req x); Settle (Rejected reason)].
      simpl. repeat split; auto; discriminate.
Qed.

(** The whole batch branch of the [try] block, for a loop whose units all
    succeed, started on an empty trace. *)
Lemma batch_fulfilled (l : list A) msg0 w :
  trace w = [] ->
  (forall i x, l !! i = Some x ->
     exists resultSrc r, remote i (req x) = Fulfilled resultSrc /\ mk x resultSrc = Some r) ->
  exists rs w',
    (set_loading_message msg0 ;;
     generatedResults <- for_entries 0 l body [] ;;
     update (setResults generatedResults))%js w = (inr tt, w')
    /\ results (app w') = rs
    /\ calls_of (trace w') = List.map req l
    /\ strictly_sequential (trace w') = true
    /\ length rs = length l
    /\ (forall i x, l !! i = Some x ->
          exists resultSrc r,
            remote i (req x) = Fulfilled resultSrc /\ mk x resultSrc = Some r
            /\ rs !! i = Some r).
Proof.
  intros Hw Hall.
  set (w1 := {| app := setLoadingMessage msg0 (app w); trace := trace w ++ [LoadingMessage msg0] |}).
  assert (calls_of (trace w1) = []) as Hc1 by (subst w1; simpl; by rewrite Hw).
  destruct (for_entries_fulfilled remote msg req mk body body_step l 0 [] w1)
    as (rs & w2 & Hrun & Hc & Hs & Hlen & Hrs & Happ).
  { rewrite Hc1. exact Hall. }
  rewrite Hc1 in Hc, Hrs. simpl in Hc, Hrs.
  exists rs, {| app := setResults rs (app w2); trace := trace w2 |}.
  split; [|split; [|split; [|split; [|split]]]]; auto.
  - rewrite bind_run, set_loading_message_run, bind_run. fold w1.
    by rewrite Hrun.
  - apply Hs. subst w1. simpl. by rewrite Hw.
Qed.

End LoopShape.

(** From a list of records that matches the units one by one to the list of
    their names. *)
Lemma names_of_records {A} (req : A -> Request) (mk : A -> jsstring -> option ResultImage)
    (g : A -> jsstring) (l : list A) (rs : list ResultImage) :
  (forall x resultSrc r, mk x resultSrc = Some r -> rname r = g x) ->
  length rs = length l ->
  (forall i x, l !! i = Some x ->
     exists resultSrc r,
       remote i (req x) = Fulfilled resultSrc /\ mk x resultSrc = Some r /\ rs !! i = Some r) ->
  List.map rname rs = List.map g l.
Proof.
  intros Hg Hlen Hrs. apply list_eq. intros i.
  change (List.map rname rs) with (rname <$> rs). change (List.map g l) with (g <$> l).
  rewrite !list_lookup_fmap.
  destruct (l !! i) as [x|] eqn:Hx.
  - destruct (Hrs i x Hx) as (s' & r & _ & Hmk & ->). simpl. f_equal. by eapply Hg.
  - apply lookup_ge_None in Hx. rewrite (lookup_ge_None_2 rs i) by lia. reflexivity.
Qed.

Ltac choose_mode H :=
  unfold try_block; rewrite H;
  repeat (destruct (decide _) as [?|?]; try congruence).

(** The [try] block in any mode: calls answered one at a time, no alert and
    no console line of its own, the inputs and the loading flag untouched, a
    call as soon as there is a unit; when it completes there is one record
    and one call per unit, and a [TypeError] means the image read with
    [arr[0]] was missing. *)
Lemma try_block_shape c w res w' :
  try_block remote c w = (res, w') ->
  exists t',
    trace w' = trace w ++ t'
    /\ sequential_from false t' = true
    /\ alerts_of t' = [] /\ console_errors_of t' = []
    /\ same_inputs (app w') (app w)
    /\ isLoading (app w') = isLoading (app w)
    /\ (1 <= work_units c -> 1 <= length (calls_of t'))
    /\ (forall a, res = inr a ->
          length (results (app w')) = work_units c /\ length (calls_of t') = work_units c)
    /\ (res = inl TypeError -> primary_missing c).
Proof.
  assert (Hloop : forall A msg req mk body (l : list A) msg0,
    (forall index x acc w, body index x acc w = unit_step remote msg req mk index x acc w) ->
    (set_loading_message msg0 ;;
     generatedResults <- for_entries 0 l body [] ;;
     update (setResults generatedResults))%js w = (res, w') ->
    exists t',
      trace w' = trace w ++ t'
      /\ sequential_from false t' = true
      /\ alerts_of t' = [] /\ console_errors_of t' = []
      /\ same_inputs (app w') (app w)
      /\ isLoading (app w') = isLoading (app w)
      /\ (1 <= length l -> 1 <= length (calls_of t'))
      /\ (forall a, res = inr a ->
            length (results (app w')) = length l /\ length (calls_of t') = length l)
      /\ (res = inl TypeError -> exists x resultSrc, x ∈ l /\ mk x resultSrc = None)).
  { intros A msg req mk body l msg0 Hbody Hrun.
    rewrite bind_run, set_loading_message_run, bind_run in Hrun.
    destruct (for_entries 0 l body [] _) as [[e|rs] w2] eqn:Hl;
      apply (for_entries_shape msg req mk body Hbody) in Hl
        as (t' & Ht & Hseq & Hal & Hce & Happ & Hone & Hok & Hty);
      cbn [app trace] in Ht, Happ; injection Hrun as <- <-;
      exists (LoadingMessage msg0 :: t');
      cbn [app trace calls_of alerts_of console_errors_of sequential_from];
      (split; [by rewrite Ht, <- app_assoc|]);
      (split; [exact Hseq|]); (split; [exact Hal|]); (split; [exact Hce|]).
    - rewrite Happ. split; [by repeat split|]. split; [reflexivity|].
      split; [intros H1; apply Hone; intros ->; simpl in H1; lia|].
      split; [discriminate|]. intros [= He]. apply Hty. by rewrite He.
    - rewrite Happ. split; [by repeat split|]. split; [reflexivity|].
      split; [intros H1; apply Hone; intros ->; simpl in H1; lia|].
      split; [|discriminate].
      intros a _. destruct (Hok rs eq_refl) as [H1 H2]. simpl in H1. by split. }
  intros Hrun. unfold work_units, primary_missing.
  destruct (mode c) eqn:Hmode; revert Hrun; choose_mode Hmode; intros Hrun.
  - destruct (Hloop _ _ _ _ _ _ _ (outfit_body remote c) Hrun)
      as (t' & H1 & H2 & H3 & H4 & H5 & H6 & H7 & H8 & H9).
    exists t'. repeat (split; [assumption|]).
    intros Hty. destruct (H9 Hty) as (x & resultSrc & Hx & Hmk).
    unfold outfit_record in Hmk. split.
    + destruct (models c); [reflexivity|discriminate].
    + intros Hnil. rewrite Hnil in Hx. by apply elem_of_nil in Hx.
  - destruct (Hloop _ _ _ _ _ _ _ (model_body remote c) Hrun)
      as (t' & H1 & H2 & H3 & H4 & H5 & H6 & H7 & H8 & H9).
    exists t'. repeat (split; [assumption|]).
    intros Hty. destruct (H9 Hty) as (x & resultSrc & Hx & Hmk).
    unfold model_record in Hmk. split.
    + destruct (outfits c); [reflexivity|discriminate].
    + intros Hnil. rewrite Hnil in Hx. by apply elem_of_nil in Hx.
  - rewrite bind_run, set_loading_message_run, bind_run, await_run in Hrun.
    cbn [app trace] in Hrun. rewrite calls_of_app in Hrun.
    destruct (baseImage c) as [|b bs] eqn:Hbase;
      destruct (remote _ _) as [resultSrc|reason];
      injection Hrun as <- <-;
      eexists [LoadingMessage _; Call _; Settle _]; cbn;
      rewrite <- ?app_assoc; repeat split; auto; try discriminate.
  - rewrite bind_run, set_loading_message_run, bind_run, await_run in Hrun.
    cbn [app trace] in Hrun. rewrite calls_of_app in Hrun.
    destruct (remote _ _) as [resultSrc|reason];
      injection Hrun as <- <-;
      eexists [LoadingMessage _; Call _; Settle _]; cbn;
      rewrite <- ?app_assoc; repeat split; auto; try discriminate.
  - destruct (Hloop _ _ _ _ _ _ _ (poster_body remote c) Hrun)
      as (t' & H1 & H2 & H3 & H4 & H5 & H6 & H7 & H8 & H9).
    exists t'. repeat (split; [assumption|]).
    intros Hty. destruct (H9 Hty) as (x & resultSrc & _ & Hmk). discriminate.
Qed.

(** What a run leaves, from what its [try] block did. *)
Lemma run_cases s :
  exists res t,
    try_block remote s {| app := setResults [] (setIsLoading true s); trace := [] |}
    = (res, {| app := app (snd (try_block remote s
                 {| app := setResults [] (setIsLoading true s); trace := [] |}));
               trace := t |})
    /\ app (run remote s)
       = settled (app (snd (try_block remote s
                   {| app := setResults [] (setIsLoading true s); trace := [] |})))
    /\ trace (run remote s)
       = t ++ match res with
              | inr _ => [LoadingMessage []]
              | inl e => [ConsoleError (lit "Generation failed:") e;
                          Alert (lit "An error occurred during generation. Check the console for details.");
                          LoadingMessage []]
              end.
Proof.
  rewrite run_unfold.
  destruct (try_block remote s _) as [[e|[]] [a1 t1]]; cbn [snd app trace].
  - by exists (inl e), t1.
  - by exists (inr tt), t1.
Qed.

(** X12: a run is all or nothing.  Either every call was fulfilled, there
    are as many calls and as many results as work units, and nothing is
    alerted or logged; or the user is alerted exactly once, one error is
    logged, and the result set is empty. *)
Theorem run_is_all_or_nothing s :
  (alerts_of (trace (run remote s)) = []
   /\ console_errors_of (trace (run remote s)) = []
   /\ forallb is_fulfilled (outcomes_of (trace (run remote s))) = true
   /\ length (results (app (run remote s))) = work_units s
   /\ length (calls_of (trace (run remote s))) = work_units s)
  \/ (alerts_of (trace (run remote s))
      = [lit "An error occurred during generation. Check the console for details."]
      /\ (exists e, console_errors_of (trace (run remote s)) = [e])
      /\ results (app (run remote s)) = []).
Proof.
  destruct (run_cases s) as (res & t & Hb & -> & ->).
  destruct (try_block_fail_fast remote _ _ _ _ Hb) as (t1 & Ht1 & _ & _ & _ & Hok & Hres).
  destruct (try_block_shape _ _ _ _ Hb) as (t2 & Ht2 & _ & Hal & Hce & _ & _ & _ & Hok2 & _).
  cbn [app trace List.app] in *. subst t1. subst t2.
  rewrite alerts_of_app, console_errors_of_app, outcomes_of_app, calls_of_app, Hal, Hce.
  destruct res as [e|[]].
  - right. cbn. rewrite (Hres e eq_refl). eauto.
  - left. cbn. rewrite !app_nil_r.
    destruct (Hok2 tt eq_refl) as [H1 H2]. rewrite (Hok tt eq_refl). auto.
Qed.

(** X13: whatever the mode and the answers of the service, a run leaves the
    mode, the four selections and the instruction as they were, and ends with
    the loading flag down and the progress label empty. *)
Theorem run_keeps_inputs_and_ends_idle s :
  same_inputs (app (run remote s)) s
  /\ isLoading (app (run remote s)) = false
  /\ loadingMessage (app (run remote s)) = [].
Proof.
  destruct (run_cases s) as (res & t & Hb & -> & _).
  destruct (try_block_shape _ _ _ _ Hb) as (t2 & _ & _ & _ & _ & Hin & _).
  cbn [app] in Hin. destruct Hin as (H1 & H2 & H3 & H4 & H5 & H6).
  split; [|by split]. by repeat split.
Qed.

(** X14: in every mode and whatever the service answers, no call is issued
    while another is outstanding, every call issued is settled, and there
    are at most as many calls as work units. *)
Theorem run_is_sequential_and_bounded s :
  strictly_sequential (trace (run remote s)) = true
  /\ length (calls_of (trace (run remote s))) = length (outcomes_of (trace (run remote s)))
  /\ length (calls_of (trace (run remote s))) <= work_units s.
Proof.
  destruct (run_cases s) as (res & t & Hb & _ & ->).
  destruct (try_block_fail_fast remote _ _ _ _ Hb) as (t1 & Ht1 & Hlen & Hle & _).
  destruct (try_block_shape _ _ _ _ Hb) as (t2 & Ht2 & Hseq & _).
  cbn [app trace List.app] in *. subst t1. subst t2.
  unfold strictly_sequential.
  rewrite (sequential_from_app _ _ _ Hseq), calls_of_app, outcomes_of_app, !length_app.
  by destruct res as [e|[]]; cbn; (split; [reflexivity|]); split; lia.
Qed.

(** X15: a run started while the button is enabled issues at least one
    call and never fails on a missing image: no [TypeError] is logged, so the
    only failure it can meet is a rejected call. *)
Theorem enabled_run_reads_no_undefined s :
  may_start s ->
  1 <= length (calls_of (trace (run remote s)))
  /\ ~ In TypeError (console_errors_of (trace (run remote s))).
Proof.
  intros Hstart. destruct (may_start_work s Hstart) as [Hwork Hprimary].
  destruct (run_cases s) as (res & t & Hb & _ & ->).
  destruct (try_block_shape _ _ _ _ Hb) as (t2 & Ht2 & _ & _ & Hce & _ & _ & Hone & _ & Hty).
  cbn [app trace List.app] in *. subst t2.
  rewrite calls_of_app, console_errors_of_app, length_app, Hce. split.
  - specialize (Hone Hwork). lia.
  - destruct res as [e|[]]; cbn; [|tauto].
    intros [->|[]]. by apply Hprimary, Hty.
Qed.

(** X16: a run over no work unit (an empty list to loop over) issues no
    call, alerts nothing and ends with an empty result set. *)
Theorem run_without_work s :
  work_units s = 0 ->
  calls_of (trace (run remote s)) = []
  /\ alerts_of (trace (run remote s)) = []
  /\ results (app (run remote s)) = [].
Proof.
  unfold work_units. intros Hzero. rewrite run_unfold.
  destruct (mode s) eqn:Hmode; try discriminate;
    apply nil_length_inv in Hzero; choose_mode Hmode; rewrite Hzero;
    rewrite bind_run, set_loading_message_run, bind_run; by cbn.
Qed.

(** X17: when the image read with [arr[0]] is missing while there is work to
    do, the run still issues its first call, with [undefined] in that place,
    and then stops: one call, one alert, no result. *)
Theorem run_with_missing_primary s :
  primary_missing s ->
  length (calls_of (trace (run remote s))) = 1
  /\ alerts_of (trace (run remote s))
     = [lit "An error occurred during generation. Check the console for details."]
  /\ results (app (run remote s)) = []
  /\ match mode s with
     | OneModelNOutfits =>
         exists o, calls_of (trace (run remote s)) = [generateVirtualTryOn None (Some o) (prompt s)]
     | NModelsOneOutfit =>
         exists m, calls_of (trace (run remote s)) = [generateVirtualTryOn (Some m) None (prompt s)]
     | _ => calls_of (trace (run remote s)) = [editImage None (prompt s)]
     end.
Proof.
  unfold primary_missing. intros Hmissing. rewrite run_unfold.
  destruct (mode s) eqn:Hmode; try contradiction; choose_mode Hmode.
  - destruct Hmissing as [Hm Ho]. destruct (outfits s) as [|o os] eqn:Houtfits; [done|].
    rewrite bind_run, set_loading_message_run, bind_run. cbn [for_entries].
    rewrite bind_run, bind_run, set_loading_message_run, bind_run, await_run, Hm.
    cbn [app trace]. rewrite !calls_of_app.
    destruct (remote _ _); cbn; rewrite ?calls_of_app, ?alerts_of_app; cbn; eauto 6.
  - destruct Hmissing as [Ho Hm]. destruct (models s) as [|m ms] eqn:Hmodels; [done|].
    rewrite bind_run, set_loading_message_run, bind_run. cbn [for_entries].
    rewrite bind_run, bind_run, set_loading_message_run, bind_run, await_run, Ho.
    cbn [app trace]. rewrite !calls_of_app.
    destruct (remote _ _); cbn; rewrite ?calls_of_app, ?alerts_of_app; cbn; eauto 6.
  - rewrite bind_run, set_loading_message_run, bind_run, await_run, Hmissing.
    cbn [app trace].
    destruct (remote _ _); cbn; eauto 6.
Qed.

(** A run whose [try] block is a batch loop, all of whose units succeed. *)
Lemma batch_run_fulfilled {A} msg req mk body (l : list A) msg0 s :
  (forall index x acc w, body index x acc w = unit_step remote msg req mk index x acc w) ->
  try_block remote s
  = (set_loading_message msg0 ;;
     generatedResults <- for_entries 0 l body [] ;;
     update (setResults generatedResults))%js ->
  (forall i x, l !! i = Some x ->
     exists resultSrc r, remote i (req x) = Fulfilled resultSrc /\ mk x resultSrc = Some r) ->
  calls_of (trace (run remote s)) = List.map req l
  /\ strictly_sequential (trace (run remote s)) = true
  /\ length (results (app (run remote s))) = length l
  /\ (forall i x, l !! i = Some x ->
        exists resultSrc r,
          remote i (req x) = Fulfilled resultSrc /\ mk x resultSrc = Some r
          /\ results (app (run remote s)) !! i = Some r).
Proof.
  intros Hbody Hblock Hall. rewrite run_unfold, Hblock.
  destruct (batch_fulfilled msg req mk body Hbody l msg0
              {| app := setResults [] (setIsLoading true s); trace := [] |} eq_refl Hall)
    as (rs & w' & -> & Hres & Hc & Hs & Hlen & Hrs).
  cbn [app trace]. change (results (settled (app w'))) with (results (app w')).
  rewrite Hres, calls_of_app, Hc. cbn [calls_of]. rewrite app_nil_r.
  split; [reflexivity|]. split; [|by split].
  unfold strictly_sequential in *. by rewrite (sequential_from_app _ _ _ Hs).
Qed.

Lemma outfit_run_fulfilled s m ms :
  mode s = OneModelNOutfits ->
  models s = m :: ms ->
  (forall i o, outfits s !! i = Some o ->
     is_fulfilled (remote i (generateVirtualTryOn (Some m) (Some o) (prompt s))) = true) ->
  List.map rname (results (app (run remote s)))
  = List.map (fun o => stem (name m) ++ lit "_" ++ stem (name o) ++ lit ".png") (outfits s).
Proof.
  intros Hmode Hmodels Hall.
  edestruct (batch_run_fulfilled (outfit_progress s) (outfit_request s) (outfit_record s))
    as (_ & _ & Hlen & Hrs).
  - apply (outfit_body remote s).
  - choose_mode Hmode. reflexivity.
  - intros i o Hi. specialize (Hall i o Hi). unfold outfit_request, outfit_record.
    rewrite Hmodels. change ((m :: ms) !! 0) with (Some m).
    destruct (remote i _) as [resultSrc|]; [eauto|discriminate].
  - eapply names_of_records; [|exact Hlen|exact Hrs].
    intros o resultSrc r. unfold outfit_record. rewrite Hmodels.
    change ((m :: ms) !! 0) with (Some m). rewrite !split_dot_first. by intros [= <-].
Qed.

(** X18: the paired many-to-one run.  With the outfit [o] and every call
    fulfilled, one call per model is issued, in input order and one at a time,
    and the [i]-th result carries what the [i]-th call returned under the
    name [{stem of the i-th model}_{stem of o}.png]. *)
Theorem many_models_one_outfit_run s o os :
  mode s = NModelsOneOutfit ->
  outfits s = o :: os ->
  (forall i m, models s !! i = Some m ->
     is_fulfilled (remote i (generateVirtualTryOn (Some m) (Some o) (prompt s))) = true) ->
  calls_of (trace (run remote s))
  = List.map (fun m => generateVirtualTryOn (Some m) (Some o) (prompt s)) (models s)
  /\ strictly_sequential (trace (run remote s)) = true
  /\ length (results (app (run remote s))) = length (models s)
  /\ (forall i m, models s !! i = Some m ->
        exists resultSrc,
          remote i (generateVirtualTryOn (Some m) (Some o) (prompt s)) = Fulfilled resultSrc
          /\ results (app (run remote s)) !! i
             = Some {| src := resultSrc;
                       rname := stem (name m) ++ lit "_" ++ stem (name o) ++ lit ".png" |}).
Proof.
  intros Hmode Houtfits Hall.
  assert (Hreq : forall m, model_request s m = generateVirtualTryOn (Some m) (Some o) (prompt s)).
  { intros m. unfold model_request. by rewrite Houtfits. }
  edestruct (batch_run_fulfilled (model_progress s) (model_request s) (model_record s))
    as (Hc & Hs & Hlen & Hrs).
  - apply (model_body remote s).
  - choose_mode Hmode. reflexivity.
  - intros i m Hi. specialize (Hall i m Hi). rewrite Hreq. unfold model_record.
    rewrite Houtfits. change ((o :: os) !! 0) with (Some o).
    destruct (remote i _) as [resultSrc|]; [eauto|discriminate].
  - split; [|split; [exact Hs|split; [exact Hlen|]]].
    + rewrite Hc. apply map_ext. exact Hreq.
    + intros i m Hi. destruct (Hrs i m Hi) as (resultSrc & r & Ho & Hr & Hl).
      rewrite Hreq in Ho. exists resultSrc. split; [exact Ho|].
      rewrite Hl. unfold model_record in Hr. rewrite Houtfits in Hr.
      change ((o :: os) !! 0) with (Some o) in Hr. cbv iota beta in Hr.
      rewrite !split_dot_first in Hr. by injection Hr as <-.
Qed.

(** X19: the poster run.  With every call fulfilled, one call per poster is
    issued, in input order and one at a time, and the [i]-th result carries
    what the [i]-th call returned under the name [poster_in_room_] followed
    by the full name of the [i]-th poster. *)
Theorem poster_placement_run s :
  mode s = PosterPlacement ->
  (forall i p, poster s !! i = Some p ->
     is_fulfilled (remote i (placePosterOnWall p (prompt s))) = true) ->
  calls_of (trace (run remote s))
  = List.map (fun p => placePosterOnWall p (prompt s)) (poster s)
  /\ strictly_sequential (trace (run remote s)) = true
  /\ length (results (app (run remote s))) = length (poster s)
  /\ (forall i p, poster s !! i = Some p ->
        exists resultSrc,
          remote i (placePosterOnWall p (prompt s)) = Fulfilled resultSrc
          /\ results (app (run remote s)) !! i
             = Some {| src := resultSrc; rname := lit "poster_in_room_" ++ name p |}).
Proof.
  intros Hmode Hall.
  edestruct (batch_run_fulfilled (poster_progress s) (poster_request s) (poster_record s))
    as (Hc & Hs & Hlen & Hrs).
  - apply (poster_body remote s).
  - choose_mode Hmode. reflexivity.
  - intros i p Hi. specialize (Hall i p Hi). unfold poster_request, poster_record.
    destruct (remote i _) as [resultSrc|]; [eauto|discriminate].
  - split; [exact Hc|]. split; [exact Hs|]. split; [exact Hlen|].
    intros i p Hi. destruct (Hrs i p Hi) as (resultSrc & r & Ho & Hr & Hl).
    exists resultSrc. split; [exact Ho|]. rewrite Hl. unfold poster_record in Hr. congruence.
Qed.

(** X20: paired result names ignore everything after the first dot of the
    input names: in a one-to-many run that succeeds, two outfits whose names
    have the same stem get the same result name. *)
Theorem equal_stems_give_equal_names s m ms i j oi oj :
  mode s = OneModelNOutfits ->
  models s = m :: ms ->
  (forall k o, outfits s !! k = Some o ->
     is_fulfilled (remote k (generateVirtualTryOn (Some m) (Some o) (prompt s))) = true) ->
  outfits s !! i = Some oi -> outfits s !! j = Some oj ->
  stem (name oi) = stem (name oj) ->
  exists n,
    List.map rname (results (app (run remote s))) !! i = Some n
    /\ List.map rname (results (app (run remote s))) !! j = Some n.
Proof.
  intros Hmode Hmodels Hall Hi Hj Hstem.
  rewrite (outfit_run_fulfilled s m ms Hmode Hmodels Hall).
  change (List.map ?f ?l) with (f <$> l). rewrite !list_lookup_fmap, Hi, Hj. cbn.
  rewrite Hstem. eauto.
Qed.

(** X21: poster result names keep the whole input name: in a poster run that
    succeeds, posters of pairwise distinct names get pairwise distinct result
    names. *)
Theorem poster_names_stay_distinct s :
  mode s = PosterPlacement ->
  (forall i p, poster s !! i = Some p ->
     is_fulfilled (remote i (placePosterOnWall p (prompt s))) = true) ->
  NoDup (List.map name (poster s)) ->
  NoDup (List.map rname (results (app (run remote s)))).
Proof.
  intros Hmode Hall Hnodup.
  edestruct (batch_run_fulfilled (poster_progress s) (poster_request s) (poster_record s))
    as (_ & _ & Hlen & Hrs).
  - apply (poster_body remote s).
  - choose_mode Hmode. reflexivity.
  - intros i p Hi. specialize (Hall i p Hi). unfold poster_request, poster_record.
    destruct (remote i _) as [resultSrc|]; [eauto|discriminate].
  - rewrite (names_of_records _ _ (fun p => lit "poster_in_room_" ++ name p) _ _
               (fun p resultSrc r (H : poster_record s p resultSrc = Some r) =>
                  eq_sym (f_equal rname (Some_inj _ _ H))) Hlen Hrs).
    rewrite <- (map_map name (fun n => lit "poster_in_room_" ++ n)).
    apply (NoDup_fmap_2 (fun n => lit "poster_in_room_" ++ n)). exact Hnodup.
Qed.

End RunMore.




Lemma enabled_run_reads_no_undefined_witness :
  1 <= length (calls_of (trace (run second_fails sample_tryon)))
  /\ ~ In TypeError (console_errors_of (trace (run second_fails sample_tryon))).
Proof.
  apply (enabled_run_reads_no_undefined second_fails sample_tryon). reflexivity.
Defined.

Lemma run_without_work_witness :
  calls_of (trace (run always_ok (setPoster [] sample_posters))) = []
  /\ alerts_of (trace (run always_ok (setPoster [] sample_posters))) = []
  /\ results (app (run always_ok (setPoster [] sample_posters))) = [].
Proof.
  apply (run_without_work always_ok (setPoster [] sample_posters)). reflexivity.
Defined.

Lemma run_with_missing_primary_witness :
  length (calls_of (trace (run always_ok (setModels [] sample_tryon)))) = 1
  /\ results (app (run always_ok (setModels [] sample_tryon))) = [].
Proof.
  pose proof (run_with_missing_primary always_ok (setModels [] sample_tryon)) as H.
  destruct H as (Hcalls & _ & Hres & _); [split; [reflexivity|discriminate]|].
  split; [exact Hcalls|exact Hres].
Defined.

Lemma many_models_one_outfit_run_witness :
  length (results (app (run always_ok sample_many_models))) = 2
  /\ strictly_sequential (trace (run always_ok sample_many_models)) = true.
Proof.
  pose proof (many_models_one_outfit_run always_ok sample_many_models (image_of 2 c_png) []
                eq_refl eq_refl (fun i m _ => eq_refl)) as (_ & Hseq & Hlen & _).
  split; [exact Hlen|exact Hseq].
Defined.

Example many_models_one_outfit_names :
  List.map rname (results (app (run always_ok sample_many_models)))
  = [lit "anna_c.png"; lit "a_c.png"].
Proof. reflexivity. Qed.

Lemma poster_placement_run_witness :
  length (results (app (run always_ok sample_posters))) = 2
  /\ strictly_sequential (trace (run always_ok sample_posters)) = true.
Proof.
  pose proof (poster_placement_run always_ok sample_posters eq_refl (fun i p _ => eq_refl))
    as (_ & Hseq & Hlen & _).
  split; [exact Hlen|exact Hseq].
Defined.

Example poster_placement_names :
  List.map rname (results (app (run always_ok sample_posters)))
  = [lit "poster_in_room_a.png"; lit "poster_in_room_c.v2.png"].
Proof. reflexivity. Qed.

Lemma equal_stems_give_equal_names_witness :
  exists n,
    List.map rname (results (app (run always_ok
      (setOutfits [image_of 1 a_png; image_of 2 (mkFile (lit "a.jpg") (lit "image/jpeg") [])]
         sample_tryon)))) !! 0 = Some n
    /\ List.map rname (results (app (run always_ok
      (setOutfits [image_of 1 a_png; image_of 2 (mkFile (lit "a.jpg") (lit "image/jpeg") [])]
         sample_tryon)))) !! 1 = Some n.
Proof.
  apply (equal_stems_give_equal_names always_ok
           (setOutfits [image_of 1 a_png; image_of 2 (mkFile (lit "a.jpg") (lit "image/jpeg") [])]
              sample_tryon)
           anna [] 0 1 (image_of 1 a_png)
           (image_of 2 (mkFile (lit "a.jpg") (lit "image/jpeg") [])));
    reflexivity.
Defined.

Lemma poster_names_stay_distinct_witness :
  NoDup (List.map rname (results (app (run always_ok sample_posters)))).
Proof.
  apply (poster_names_stay_distinct always_ok sample_posters eq_refl (fun i p _ => eq_refl)).
  apply NoDup_cons. split.
  - intros H. apply list_elem_of_singleton in H. discriminate H.
  - apply NoDup_singleton.
Defined.

(** ** The button and the mode tabs, further *)

(** X22: an instruction made of white space only blocks the editor, the
    generator and poster placement whatever is selected; the paired modes do
    not look at the instruction. *)
Theorem blank_prompt_blocks_text_modes s :
  forallb is_white_space (prompt s) = true ->
  (may_start s <->
   isLoading s = false /\ is_paired (mode s) = true
   /\ 1 <= length (models s) /\ 1 <= length (outfits s)).
Proof.
  intros Hblank. apply trim_nil in Hblank.
  unfold may_start, isGenerateButtonDisabled. rewrite Hblank.
  change (JS.eqb [] []) with true.
  destruct (isLoading s); [split; [discriminate|intros [? _]; discriminate]|].
  destruct (mode s); cbn [is_paired]; rewrite ?orb_true_r.
  1,2: rewrite orb_false_iff, !length_eqb_0; tauto.
  all: split; [discriminate|intros (_ & H & _); discriminate H].
Qed.

(** X23: of two mode switches in a row only the second counts, and
    switching to the same mode twice is switching once. *)
Theorem mode_switch_last_wins s m1 m2 :
  handleModeChange m2 (handleModeChange m1 s) = handleModeChange m2 s.
Proof. by destruct m1, m2. Qed.

(** X24: right after a mode switch a run may start only in generator mode,
    whose default instruction is not empty, and only if no run is in flight;
    every other mode first needs images. *)
Theorem after_mode_switch_only_generator_may_start s m :
  may_start (handleModeChange m s) <-> m = Generator /\ isLoading s = false.
Proof.
  unfold may_start, isGenerateButtonDisabled.
  destruct m;
    match goal with
    | |- context [isLoading (handleModeChange ?m s)] =>
        change (isLoading (handleModeChange m s)) with (isLoading s)
    end;
    destruct (isLoading s); vm_compute;
    (split;
     [ intros H; try discriminate H; by split
     | intros [H1 H2]; try discriminate H1; try discriminate H2; reflexivity ]).
Qed.

Lemma blank_prompt_blocks_text_modes_witness :
  ~ may_start (setPrompt (lit "   ") sample_generator).
Proof.
  intros H.
  apply (proj1 (blank_prompt_blocks_text_modes (setPrompt (lit "   ") sample_generator) eq_refl)) in H.
  destruct H as (_ & Hpaired & _). discriminate Hpaired.
Defined.

(** ** Packaging, further *)

Section PackagingMore.

Variables Response Blob : Type.
Variable fetch : nat -> jsstring -> jsstring + Response.
Variable blob : Response -> jsstring + Blob.




End PackagingMore.


(** ** [fileToBase64] *)

Lemma split_without_sep sep s : ~ In sep s -> split sep s = [s].
Proof.
  induction s as [|c s IH]; intros Hs; [reflexivity|]. simpl.
  destruct (N.eqb_spec c sep) as [->|_]; [exfalso; apply Hs; by left|].
  rewrite IH; [reflexivity|]. intros H. apply Hs. by right.
Qed.

Lemma split_at_first_sep sep header rest :
  ~ In sep header -> split sep (header ++ sep :: rest) = header :: split sep rest.
Proof.
  induction header as [|c header IH]; intros Hh; simpl.
  - by rewrite N.eqb_refl.
  - destruct (N.eqb_spec c sep) as [->|_]; [exfalso; apply Hh; by left|].
    rewrite IH; [reflexivity|]. intros H. apply Hh. by right.
Qed.

(** X27: when the reader yields a data URL, a header without comma, a comma
    and a payload without comma (as base64 is), [fileToBase64] resolves with
    exactly the payload: the prefix up to and including the comma is gone. *)
Theorem fileToBase64_strips_prefix readAsDataURL f header payload :
  readAsDataURL f = inr (header ++ comma :: payload) ->
  ~ In comma header -> ~ In comma payload ->
  fileToBase64 readAsDataURL f = inr (Some payload).
Proof.
  intros Hread Hh Hp. unfold fileToBase64. rewrite Hread.
  by rewrite (split_at_first_sep comma header payload Hh), (split_without_sep comma payload Hp).
Qed.

(** X28: a result that holds no comma resolves the promise with
    [undefined], not with the result. *)
Theorem fileToBase64_without_comma readAsDataURL f result :
  readAsDataURL f = inr result ->
  ~ In comma result ->
  fileToBase64 readAsDataURL f = inr None.
Proof.
  intros Hread Hr. unfold fileToBase64. rewrite Hread.
  by rewrite (split_without_sep comma result Hr).
Qed.

Lemma fileToBase64_strips_prefix_witness :
  fileToBase64 sample_reader a_png = inr (Some (lit "aGVsbG8=")).
Proof.
  apply (fileToBase64_strips_prefix sample_reader a_png (lit "data:image/png;base64") (lit "aGVsbG8=")).
  - reflexivity.
  - vm_compute. intuition discriminate.
  - vm_compute. intuition discriminate.
Defined.

Lemma fileToBase64_without_comma_witness :
  fileToBase64 (fun _ => inr (lit "data:")) a_png = inr None.
Proof.
  apply (fileToBase64_without_comma (fun _ => inr (lit "data:")) a_png (lit "data:")).
  - reflexivity.
  - vm_compute. intuition discriminate.
Defined.
